(** * dynaconf.utils: object_merge, Missing and deduplicate

    A shallow embedding of [dynaconf/utils/__init__.py].  Python lists and
    dicts are mutable objects with identity, so they live in a store and are
    referred to by location; [object_merge] is a store transformer.  Scalars
    are immediate values.  Dict keys are strings (configuration keys), and a
    dict keeps its entries in insertion order.

    The built-in operations the code relies on follow Python 3: [==] on
    lists and dicts compares items with the identity shortcut and stops at
    the first difference, [x in l] compares the items of [l], in order, with
    [x], and iterating over [d.items()] fails with RuntimeError once [d] has
    changed size. *)

From stdpp Require Import base option list gmap strings.
From Stdlib Require Import ZArith Lia.

Local Open Scope Z_scope.
Local Open Scope nat_scope.

(** ** Values and the store *)

Abbreviation loc := nat.

Inductive val : Type :=
  | VNone
  | VBool (b : bool)
  | VInt (n : Z)
  | VStr (s : string)
  | VMissing (inst : nat)   (* an instance of class Missing; [inst] is its identity *)
  | VRef (l : loc).         (* a list or dict object *)

Inductive obj : Type :=
  | OList (items : list val)
  | ODict (entries : list (string * val)).

Abbreviation heap := (gmap loc obj).

Global Instance val_eq_dec : EqDecision val.
Proof. solve_decision. Defined.

Global Instance obj_eq_dec : EqDecision obj.
Proof. solve_decision. Defined.

(** ** Outcomes

    A call either returns, raises, or exhausts the recursion budget.  The
    budget stands for the interpreter's recursion limit: on a cyclic structure
    the Python code does not return either. *)

Inductive exn : Type := RuntimeError | TypeError.

Inductive result (A : Type) : Type :=
  | Ok (a : A)
  | Raise (e : exn)
  | OutOfFuel.

Arguments Ok {A} a.
Arguments Raise {A} e.
Arguments OutOfFuel {A}.

Global Instance result_ret : MRet result := fun A a => Ok a.
Global Instance result_bind : MBind result := fun A B k m =>
  match m with
  | Ok a => k a
  | Raise e => Raise e
  | OutOfFuel => OutOfFuel
  end.

(** ** The sentinel: class Missing *)

Module Missing.

(** [isinstance(other, self.__class__)] *)
Definition isinstance (other : val) : bool :=
  match other with VMissing _ => true | _ => false end.

(** [def __bool__(self): return False] *)
Definition __bool__ (self : val) : bool := false.

(** [def __eq__(self, other): return isinstance(other, self.__class__)] *)
Definition __eq__ (self other : val) : bool := isinstance other.

(** [__nonzero__ = __bool__] *)
Definition __nonzero__ := __bool__.

(** [def __repr__(self): return "<dynaconf.missing>"] *)
Definition __repr__ (self : val) : string := "<dynaconf.missing>".

End Missing.

(** [missing = Missing()]: the module-level instance. *)
Definition missing : val := VMissing 0.

(** ** Python's [bool(x)], [is] and [==] on these values *)

(** [entries[key]], or [None] when [key not in entries]. *)
Fixpoint dict_get (key : string) (entries : list (string * val)) : option val :=
  match entries with
  | [] => None
  | (k, v) :: entries' => if bool_decide (k = key) then Some v else dict_get key entries'
  end.

Definition py_bool (h : heap) (v : val) : bool :=
  match v with
  | VNone => false
  | VBool b => b
  | VInt n => negb (Z.eqb n 0)
  | VStr s => negb (bool_decide (s = ""%string))
  | VMissing _ => Missing.__bool__ v
  | VRef l =>
      match h !! l with
      | Some (OList items) => negb (bool_decide (items = []))
      | Some (ODict entries) => negb (bool_decide (entries = []))
      | None => true
      end
  end.

(** [a is b] *)
Definition py_is (a b : val) : bool := bool_decide (a = b).

(** [==] when at least one operand is not a list or a dict.  An operand of
    class Missing answers through [Missing.__eq__], directly when it is on the
    left and reflected when it is on the right (the other types return
    NotImplemented for it).  [bool] is a subclass of [int].  A container is
    equal to no scalar. *)
Definition scalar_eq (a b : val) : bool :=
  match a, b with
  | VMissing _, _ => Missing.__eq__ a b
  | _, VMissing _ => Missing.__eq__ b a
  | VNone, VNone => true
  | VBool x, VBool y => Bool.eqb x y
  | VBool x, VInt n => Z.eqb (Z.b2z x) n
  | VInt n, VBool y => Z.eqb n (Z.b2z y)
  | VInt n, VInt m => Z.eqb n m
  | VStr s, VStr t => bool_decide (s = t)
  | _, _ => false
  end.

Section compare.
(** The element comparison used inside containers. *)
Variable eq : val → val → result bool.

(** PyObject_RichCompareBool(a, b, Py_EQ): identity implies equality. *)
Definition RichCompareBool (a b : val) : result bool :=
  if py_is a b then Ok true else eq a b.

(** The scan of [list.__eq__] once the lengths agree: stop at the first
    pair that differs. *)
Fixpoint list_richcompare_loop (xs ys : list val) : result bool :=
  match xs, ys with
  | x :: xs', y :: ys' =>
      b ← RichCompareBool x y;
      if b : bool then list_richcompare_loop xs' ys' else Ok false
  | _, _ => Ok true
  end.

Definition list_richcompare (xs ys : list val) : result bool :=
  if negb (length xs =? length ys) then Ok false
  else list_richcompare_loop xs ys.

(** [dict.__eq__]: same size, and every key of the left dict is bound in
    the right one to an equal value. *)
Fixpoint dict_equal_loop (ea eb : list (string * val)) : result bool :=
  match ea with
  | [] => Ok true
  | (k, av) :: ea' =>
      match dict_get k eb with
      | None => Ok false
      | Some bv =>
          b ← RichCompareBool av bv;
          if b : bool then dict_equal_loop ea' eb else Ok false
      end
  end.

Definition dict_equal (ea eb : list (string * val)) : result bool :=
  if negb (length ea =? length eb) then Ok false
  else dict_equal_loop ea eb.

(** [el in items] for a list: [list.__contains__]. *)
Fixpoint list_contains (items : list val) (el : val) : result bool :=
  match items with
  | [] => Ok false
  | x :: items' =>
      b ← RichCompareBool x el;
      if b : bool then Ok true else list_contains items' el
  end.
End compare.

(** [a == b].  Comparing two containers descends into them and spends one
    unit of the recursion budget per level. *)
Fixpoint py_eq (fuel : nat) (h : heap) (a b : val) {struct fuel} : result bool :=
  match a, b with
  | VRef la, VRef lb =>
      match fuel with
      | 0 => OutOfFuel
      | S f =>
          match h !! la, h !! lb with
          | Some (OList xs), Some (OList ys) => list_richcompare (py_eq f h) xs ys
          | Some (ODict ea), Some (ODict eb) => dict_equal (py_eq f h) ea eb
          | _, _ => Ok (py_is a b)
          end
      end
  | _, _ => Ok (scalar_eq a b)
  end.

(** [a in items] and the comparison of container elements, at a given
    budget. *)
Definition py_rich (fuel : nat) (h : heap) : val → val → result bool :=
  RichCompareBool (py_eq fuel h).

Definition py_contains (fuel : nat) (h : heap) : list val → val → result bool :=
  list_contains (py_eq fuel h).

(** ** object_merge *)

(** The list branch:
<<
        for item in old[::-1]:
            if unique and item in new:
                continue
            new.insert(0, item)
>>
    [items] is the reversed copy [old[::-1]]; [new] is read from and written
    to the store at [ln] on every round. *)
Fixpoint merge_list_loop (fuel : nat) (ln : loc) (unique : bool)
    (items : list val) (h : heap) : result heap :=
  match items with
  | [] => Ok h
  | item :: rest =>
      match h !! ln with
      | Some (OList ys) =>
          skip ← (if unique then py_contains fuel h ys item else Ok false);
          if skip : bool then merge_list_loop fuel ln unique rest h
          else merge_list_loop fuel ln unique rest (<[ln := OList (item :: ys)]> h)
      | _ => Raise TypeError
      end
  end.

(** The dict branch:
<<
        for key, value in old.items():
            if key not in new:
                new[key] = value
            else:
                object_merge(value, new[key])
>>
    The iterator over [old.items()] reads the dict at [lo] from the store on
    every round, entry [pos] of it, and raises RuntimeError when the dict no
    longer has the [size0] entries it had when the loop started; it makes
    that check before it reports exhaustion too.  [rec] is the recursive
    call. *)
Fixpoint merge_dict_loop (rec : val → val → bool → heap → result heap)
    (lo ln : loc) (size0 pos todo : nat) (h : heap) : result heap :=
  match h !! lo with
  | Some (ODict eo) =>
      if negb (length eo =? size0) then Raise RuntimeError
      else
        match todo with
        | 0 => Ok h
        | S todo' =>
            match eo !! pos with
            | None => Ok h
            | Some (key, value) =>
                match h !! ln with
                | Some (ODict en) =>
                    h' ← match dict_get key en with
                         | None => Ok (<[ln := ODict (en ++ [(key, value)])]> h)
                         | Some nv => rec value nv false h
                         end;
                    merge_dict_loop rec lo ln size0 (S pos) todo' h'
                | _ => Raise TypeError
                end
            end
        end
  | _ => Raise TypeError
  end.



(** [object_merge(old, new, unique)].  The result is the store after the
    call; the Python function returns None on every path. *)
Fixpoint object_merge (fuel : nat) (old new : val) (unique : bool) (h : heap)
    {struct fuel} : result heap :=
  match fuel with
  | 0 => OutOfFuel
  | S f =>
      match old, new with
      | VRef lo, VRef ln =>
          match h !! lo, h !! ln with
          | Some (OList xs), Some (OList ys) =>
              same ← py_eq f h old new;
              if same : bool then Ok h
              else merge_list_loop f ln unique (reverse xs) h
          | Some (ODict eo), Some (ODict en) =>
              merge_dict_loop (object_merge f) lo ln (length eo) 0 (length eo) h
          | _, _ => Ok h
          end
      | _, _ => Ok h
      end
  end.

(** ** deduplicate *)

(** The elements a [for] loop over [v] visits: the items of a list, the
    keys of a dict, the characters of a string.  A [str] is a sequence of
    code points and a string of the store is its UTF-8 encoding: a character
    is a lead byte together with the continuation bytes (of the form
    [10xxxxxx]) that follow it. *)
Definition is_continuation (c : Ascii.ascii) : bool :=
  match c with
  | Ascii.Ascii _ _ _ _ _ _ b6 b7 => b7 && negb b6
  end.

Fixpoint chars (s : string) : list val :=
  match s with
  | EmptyString => []
  | String c s' =>
      let cs := chars s' in
      match s' with
      | String c' _ =>
          if is_continuation c' then
            match cs with
            | VStr chunk :: rest => VStr (String c chunk) :: rest
            | _ => VStr (String c EmptyString) :: cs
            end
          else VStr (String c EmptyString) :: cs
      | EmptyString => [VStr (String c EmptyString)]
      end
  end.

Definition py_iter (h : heap) (v : val) : result (list val) :=
  match v with
  | VRef l =>
      match h !! l with
      | Some (OList items) => Ok items
      | Some (ODict entries) => Ok (VStr <$> entries.*1)
      | None => Raise TypeError
      end
  | VStr s => Ok (chars s)
  | _ => Raise TypeError
  end.

(** <<
    for item in list_object:
        if item not in new:
            new.append(item)
>>
    [new] is local to the call until it is returned, so it is kept beside the
    store. *)
Fixpoint deduplicate_loop (fuel : nat) (h : heap) (items new : list val) : result (list val) :=
  match items with
  | [] => Ok new
  | item :: rest =>
      seen ← py_contains fuel h new item;
      deduplicate_loop fuel h rest (if seen : bool then new else new ++ [item])
  end.

(** [deduplicate(list_object)]: the returned list is a fresh object. *)
Definition deduplicate (fuel : nat) (list_object : val) (h : heap) : result (val * heap) :=
  items ← py_iter h list_object;
  new ← deduplicate_loop fuel h items [];
  let l := fresh (dom h) in
  Ok (VRef l, <[l := OList new]> h).

(** ** How a store may evolve

    [object_merge] only ever prepends to a list and appends a new key to a
    dict: an object keeps its kind, a list keeps its former items as a
    suffix, a dict keeps its former entries as a prefix. *)

Definition obj_le (o o' : obj) : Prop :=
  match o, o' with
  | OList xs, OList xs' => xs `suffix_of` xs'
  | ODict e, ODict e' => e `prefix_of` e'
  | _, _ => False
  end.

Definition heap_le (h h' : heap) : Prop :=
  ∀ l, match h !! l with
       | Some o => ∃ o', h' !! l = Some o' ∧ obj_le o o'
       | None => h' !! l = None
       end.

(** The keys of a dict object are pairwise distinct. *)
Definition obj_wf (o : obj) : Prop :=
  match o with
  | OList _ => True
  | ODict e => NoDup e.*1
  end.

Definition heap_wf (h : heap) : Prop := map_Forall (λ _, obj_wf) h.

Global Instance obj_wf_dec (o : obj) : Decision (obj_wf o).
Proof. destruct o; apply _. Defined.

Global Instance heap_wf_dec (h : heap) : Decision (heap_wf h).
Proof. apply map_Forall_dec. intros _ o. apply _. Defined.

(** ** Example stores *)

Module Examples.
Local Open Scope string_scope.

(** [A = [1]] at 0 and [B = [1]] at 1. *)
Definition equal_lists : heap :=
  list_to_map [(0, OList [VInt 1]); (1, OList [VInt 1])].

(** [old = {"a": [1,2], "b": {"x": 1}}] at 0,
    [new = {"a": [3], "b": {"y": 2}}] at 3, and the literal
    [{"a": [1,2,3], "b": {"x": 1, "y": 2}}] at 6. *)
Definition scenario : heap :=
  list_to_map
    [(0, ODict [("a", VRef 1); ("b", VRef 2)]);
     (1, OList [VInt 1; VInt 2]);
     (2, ODict [("x", VInt 1)]);
     (3, ODict [("a", VRef 4); ("b", VRef 5)]);
     (4, OList [VInt 3]);
     (5, ODict [("y", VInt 2)]);
     (6, ODict [("a", VRef 7); ("b", VRef 8)]);
     (7, OList [VInt 1; VInt 2; VInt 3]);
     (8, ODict [("x", VInt 1); ("y", VInt 2)])].

(** [old = ["a","b"]] at 0, [new = ["b","c"]] at 1. *)
Definition unique_lists : heap :=
  list_to_map
    [(0, OList [VStr "a"; VStr "b"]);
     (1, OList [VStr "b"; VStr "c"])].


(** [deduplicate]'s inputs: [[3,1,2,1,3]] at 0 and [[]] at 1. *)
Definition dedup_lists : heap :=
  list_to_map
    [(0, OList [VInt 3; VInt 1; VInt 2; VInt 1; VInt 3]);
     (1, OList [])].




(** [old = ["c","b"]] at 0 and [new = ["b","c"]] at 1: different lists, the
    same items. *)
Definition covered_lists : heap :=
  list_to_map
    [(0, OList [VStr "c"; VStr "b"]);
     (1, OList [VStr "b"; VStr "c"])].

(** [old = {"a": {"z": 1}}] at 0 and [new = {"a": old}] at 2: the value
    [new] binds to ["a"] is [old] itself. *)
Definition new_holds_old : heap :=
  list_to_map
    [(0, ODict [("a", VRef 1)]);
     (1, ODict [("z", VInt 1)]);
     (2, ODict [("a", VRef 0)])].

(** [[3,1,2]] at 0, and the dict [{"b": 1, "a": 2}] at 1. *)
Definition distinct_items : heap :=
  list_to_map
    [(0, OList [VInt 3; VInt 1; VInt 2]);
     (1, ODict [("b", VInt 1); ("a", VInt 2)])].

(** [old = {"a": O1, "b": O2, "c": 3}] at 0 with [O1 = {"x": O2}] at 1,
    [O2 = {"x": {"q": 1}}] at 2 and [{"q": 1}] at 3, and
    [new = {"a": D, "b": D}] at 4, where [D = {}] at 5 is one object bound to
    both keys.  [old] and [new] share no object. *)
Definition dict_shared_in_new : heap :=
  list_to_map
    [(0, ODict [("a", VRef 1); ("b", VRef 2); ("c", VInt 3)]);
     (1, ODict [("x", VRef 2)]);
     (2, ODict [("x", VRef 3)]);
     (3, ODict [("q", VInt 1)]);
     (4, ODict [("a", VRef 5); ("b", VRef 5)]);
     (5, ODict [])].

(** [old = {"a": {"z": 1}, "b": 2}] at 0 and [new = {"a": old}] at 2. *)
Definition new_holds_old_two_keys : heap :=
  list_to_map
    [(0, ODict [("a", VRef 1); ("b", VInt 2)]);
     (1, ODict [("z", VInt 1)]);
     (2, ODict [("a", VRef 0)])].

(** [old = {"a": [1], "b": [2]}] at 0 and [new = {"a": L, "b": L}] at 3,
    where [L = [3]] at 4 is one list bound to both keys. *)
Definition list_shared_in_new : heap :=
  list_to_map
    [(0, ODict [("a", VRef 1); ("b", VRef 2)]);
     (1, OList [VInt 1]);
     (2, OList [VInt 2]);
     (3, ODict [("a", VRef 4); ("b", VRef 4)]);
     (4, OList [VInt 3])].

(** [old = {"k": {"z": 0}, "j": [5]}] at 0 and [new = {"k": L, "j": L}] at
    3, where [L = [6]] at 4 is one list bound to both keys: a dict against a
    list under ["k"], two lists under ["j"]. *)
Definition mismatch_shared_list : heap :=
  list_to_map
    [(0, ODict [("k", VRef 1); ("j", VRef 2)]);
     (1, ODict [("z", VInt 0)]);
     (2, OList [VInt 5]);
     (3, ODict [("k", VRef 4); ("j", VRef 4)]);
     (4, OList [VInt 6])].

(** [old = {"k": [1]}] at 0 and [new = {"k": [1]}] at 2: equal lists under
    the shared key. *)
Definition equal_nested_lists : heap :=
  list_to_map
    [(0, ODict [("k", VRef 1)]);
     (1, OList [VInt 1]);
     (2, ODict [("k", VRef 3)]);
     (3, OList [VInt 1])].

(** [old = {"j": [1], "k": [1, 2]}] at 0 and [new = {"j": B, "k": B}] at 3,
    where [B = [2]] at 4 is one list bound to both keys. *)
Definition list_merged_twice : heap :=
  list_to_map
    [(0, ODict [("j", VRef 1); ("k", VRef 2)]);
     (1, OList [VInt 1]);
     (2, OList [VInt 1; VInt 2]);
     (3, ODict [("j", VRef 4); ("k", VRef 4)]);
     (4, OList [VInt 2])].

(** [old = {"a": 1, "b": [2], "c": {"x": 1}, "e": [7]}] at 0 and
    [new = {"c": {"y": 2}, "d": 4, "e": [8]}] at 4: two keys in common, two
    keys only in [old]. *)
Definition partial_overlap : heap :=
  list_to_map
    [(0, ODict [("a", VInt 1); ("b", VRef 1); ("c", VRef 2); ("e", VRef 3)]);
     (1, OList [VInt 2]);
     (2, ODict [("x", VInt 1)]);
     (3, OList [VInt 7]);
     (4, ODict [("c", VRef 5); ("d", VInt 4); ("e", VRef 6)]);
     (5, ODict [("y", VInt 2)]);
     (6, OList [VInt 8])].

(** A settings object [{"DEBUG": None}] at 0 and a layer
    [{"DEBUG": 1, "HOST": "x"}] at 1. *)
Definition settings : heap :=
  list_to_map
    [(0, ODict [("DEBUG", VNone)]);
     (1, ODict [("DEBUG", VInt 1); ("HOST", VStr "x")])].
End Examples.

(** ** Footprints

    [locs d h v] lists the container objects that make up [v] in the store
    [h], the object itself first and then those of its items or values, one
    entry per way of reaching an object.  It is defined when [v] is nested at
    most [d] levels deep and refers to no missing object; so a cyclic value
    has no footprint.  A value is a tree when its footprint has no
    repetition: no object occurs at two places in it. *)

Definition children (o : obj) : list val :=
  match o with
  | OList items => items
  | ODict entries => entries.*2
  end.

Fixpoint locs (d : nat) (h : heap) (v : val) : option (list loc) :=
  match v with
  | VRef l =>
      match d with
      | 0 => None
      | S d' =>
          o ← h !! l;
          L ← mapM (locs d' h) (children o);
          Some (l :: mjoin L)
      end
  | _ => Some []
  end.

(** The objects [object_merge(old, new)] can write to: [new] itself when
    both are lists or both are dicts, and below two dicts whatever the calls
    for the shared keys can write to. *)
Definition touched_entries (rec : val → val → list loc)
    (en eo : list (string * val)) : list loc :=
  mjoin ((λ kv : string * val,
            match dict_get kv.1 en with
            | Some nv => rec kv.2 nv
            | None => []
            end) <$> eo).

Fixpoint touched (d : nat) (h : heap) (old new : val) : list loc :=
  match d with
  | 0 => []
  | S d' =>
      match old, new with
      | VRef lo, VRef ln =>
          match h !! lo, h !! ln with
          | Some (OList _), Some (OList _) => [ln]
          | Some (ODict eo), Some (ODict en) =>
              ln :: touched_entries (touched d' h) en eo
          | _, _ => []
          end
      | _, _ => []
      end
  end.

(** The dicts of [new] that [object_merge(old, new)] merges a dict of
    [old] into, one entry for every time it does: [new] itself when both are
    dicts, and below them the dicts merged by the calls for the shared
    keys. *)
Fixpoint merged_dicts (d : nat) (h : heap) (old new : val) : list loc :=
  match d with
  | 0 => []
  | S d' =>
      match old, new with
      | VRef lo, VRef ln =>
          match h !! lo, h !! ln with
          | Some (ODict eo), Some (ODict en) =>
              ln :: touched_entries (merged_dicts d' h) en eo
          | _, _ => []
          end
      | _, _ => []
      end
  end.

(** The list branch's loop with [unique=True], on the items alone:
    [items] is [old[::-1]] and [cur] the current content of [new]. *)
Fixpoint unique_prepend (contains : list val → val → result bool)
    (items cur : list val) : result (list val) :=
  match items with
  | [] => Ok cur
  | item :: rest =>
      skip ← contains cur item;
      unique_prepend contains rest (if skip : bool then cur else item :: cur)
  end.

(** ** The merge, described on the initial store

    [merge_writes d h old new] lists what [object_merge(old, new)] leaves in
    the objects it writes to, read off the store [h] the call starts from:
    for two lists that are not equal, the items of [old] in front of those of
    [new]; for two dicts, the entries of [new] followed by the entries of
    [old] whose key [new] lacks, and then what the merge of [old[k]] into
    [new[k]] writes, for every key [k] they share. *)

Definition merge_writes_entries (rec : val → val → list (loc * obj))
    (en eo : list (string * val)) : list (loc * obj) :=
  mjoin ((λ kv : string * val,
            match dict_get kv.1 en with
            | Some nv => rec kv.2 nv
            | None => []
            end) <$> eo).

Fixpoint merge_writes (d : nat) (h : heap) (old new : val) : list (loc * obj) :=
  match d with
  | 0 => []
  | S d' =>
      match old, new with
      | VRef lo, VRef ln =>
          match h !! lo, h !! ln with
          | Some (OList xs), Some (OList ys) =>
              match py_eq d h old new with
              | Ok false => [(ln, OList (xs ++ ys))]
              | _ => []
              end
          | Some (ODict eo), Some (ODict en) =>
              (ln, ODict (en ++ filter (λ kv, dict_get kv.1 en = None) eo))
              :: merge_writes_entries (merge_writes d' h) en eo
          | _, _ => []
          end
      | _, _ => []
      end
  end.

(** The object a list of writes gives to a location, and the store after
    the writes. *)
Fixpoint written (l : loc) (W : list (loc * obj)) : option obj :=
  match W with
  | [] => None
  | (l', o) :: W' => if bool_decide (l' = l) then Some o else written l W'
  end.

Definition apply_writes (W : list (loc * obj)) (h : heap) : heap :=
  foldr (λ p h', <[p.1 := p.2]> h') h W.

(** ** DynaconfDict

    A [DynaconfDict] is a dict: an instance is a dict object of the store.
    Its attribute [_loaded_files], its [logger] and [get_environ] play no
    part in the two methods below. *)

(** [entries[key] = value]: an existing key keeps its place and gets the
    new value, a new key goes last. *)
Fixpoint dict_setitem (key : string) (value : val)
    (entries : list (string * val)) : list (string * val) :=
  match entries with
  | [] => [(key, value)]
  | (k, v) :: entries' =>
      if bool_decide (k = key) then (k, value) :: entries'
      else (k, v) :: dict_setitem key value entries'
  end.

Module DynaconfDict.

(** [def set(self, key, value, *args, **kwargs): self[key] = value] *)
Definition set (self : loc) (key : string) (value : val) (h : heap) : result heap :=
  match h !! self with
  | Some (ODict entries) => Ok (<[self := ODict (dict_setitem key value entries)]> h)
  | _ => Raise TypeError
  end.

(** [self.get(key, default)] *)
Definition get (self : loc) (key : string) (default : val) (h : heap) : result val :=
  match h !! self with
  | Some (ODict entries) =>
      Ok (match dict_get key entries with Some v => v | None => default end)
  | _ => Raise TypeError
  end.

(** [def exists(self, key, **kwargs):
         return self.get(key, missing) is not missing] *)
Definition exists_ (self : loc) (key : string) (h : heap) : result bool :=
  v ← get self key missing h;
  Ok (negb (py_is v missing)).

End DynaconfDict.

(** ** Deprecated names: RENAMED_VARS, warn_deprecations, compat_kwargs

    [kwargs] and [data] are dicts with string keys; these functions read and
    assign their entries and never look inside the values, so the dict is
    passed as its list of entries. *)

Definition RENAMED_VARS : list (string * string) :=
  [ ("DYNACONF_NAMESPACE", "ENV_FOR_DYNACONF");
    ("NAMESPACE_FOR_DYNACONF", "ENV_FOR_DYNACONF");
    ("DYNACONF_SETTINGS_MODULE", "SETTINGS_FILE_FOR_DYNACONF");
    ("DYNACONF_SETTINGS", "SETTINGS_FILE_FOR_DYNACONF");
    ("SETTINGS_MODULE", "SETTINGS_FILE_FOR_DYNACONF");
    ("SETTINGS_MODULE_FOR_DYNACONF", "SETTINGS_FILE_FOR_DYNACONF");
    ("PROJECT_ROOT", "ROOT_PATH_FOR_DYNACONF");
    ("PROJECT_ROOT_FOR_DYNACONF", "ROOT_PATH_FOR_DYNACONF");
    ("DYNACONF_SILENT_ERRORS", "SILENT_ERRORS_FOR_DYNACONF");
    ("DYNACONF_ALWAYS_FRESH_VARS", "FRESH_VARS_FOR_DYNACONF");
    ("BASE_NAMESPACE_FOR_DYNACONF", "DEFAULT_ENV_FOR_DYNACONF");
    ("GLOBAL_ENV_FOR_DYNACONF", "ENVVAR_PREFIX_FOR_DYNACONF") ]%string.

(** The two messages passed to [warnings.warn], both with the category
    DeprecationWarning. *)
Definition merge_enabled_warning : string :=
  "MERGE_ENABLED_FOR_DYNACONF is deprecated instead it is prefered to use the local merge feature see: https://dynaconf.readthedocs.io/en/latest/guides/usage.html#merging-existing-values".

Definition renamed_warning (old new : string) : string :=
  ("You are using " +:+ old +:+ " which is a deprecated settings replace it with "
   +:+ new)%string.

(** <<
    for old, new in RENAMED_VARS.items():
        if old in data:
            warnings.warn(...)
>>
    over the part [todo] of the table. *)
Fixpoint renamed_warnings (todo : list (string * string))
    (data : list (string * val)) : list string :=
  match todo with
  | [] => []
  | (old, new) :: todo' =>
      match dict_get old data with
      | Some _ => renamed_warning old new :: renamed_warnings todo' data
      | None => renamed_warnings todo' data
      end
  end.

(** [warn_deprecations(data)]: the warnings it issues, in order. *)
Definition warn_deprecations (h : heap) (data : list (string * val)) : list string :=
  (if py_bool h (match dict_get "MERGE_ENABLED_FOR_DYNACONF" data with
                 | Some v => v
                 | None => VNone
                 end)
   then [merge_enabled_warning] else [])
  ++ renamed_warnings RENAMED_VARS data.

(** <<
            for c_old, c_new in RENAMED_VARS.items():
                if c_new == new:
                    kwargs[c_old] = kwargs[new]
>>
    [None] stands for the KeyError of [kwargs[new]]. *)
Fixpoint update_cross_references (table : list (string * string)) (new : string)
    (kwargs : list (string * val)) : option (list (string * val)) :=
  match table with
  | [] => Some kwargs
  | (c_old, c_new) :: table' =>
      if bool_decide (c_new = new) then
        v ← dict_get new kwargs;
        update_cross_references table' new (dict_setitem c_old v kwargs)
      else update_cross_references table' new kwargs
  end.

(** <<
    for old, new in RENAMED_VARS.items():
        if old in kwargs:
            kwargs[new] = kwargs[old]
            # update cross references
            ...
>>
    [todo] is the part of the table still to visit, [table] all of it. *)
Fixpoint compat_kwargs_loop (table todo : list (string * string))
    (kwargs : list (string * val)) : option (list (string * val)) :=
  match todo with
  | [] => Some kwargs
  | (old, new) :: todo' =>
      match dict_get old kwargs with
      | Some v =>
          kwargs' ← update_cross_references table new (dict_setitem new v kwargs);
          compat_kwargs_loop table todo' kwargs'
      | None => compat_kwargs_loop table todo' kwargs
      end
  end.

(** [compat_kwargs(kwargs)]: the warnings issued and the entries [kwargs]
    is left with. *)
Definition compat_kwargs (h : heap) (kwargs : list (string * val))
    : option (list string * list (string * val)) :=
  kwargs' ← compat_kwargs_loop RENAMED_VARS RENAMED_VARS kwargs;
  Some (warn_deprecations h kwargs, kwargs').

(** The value the first deprecated name of [new] found in [kwargs] is bound
    to, the names taken in the table's order. *)
Fixpoint first_alias (table : list (string * string)) (new : string)
    (kwargs : list (string * val)) : option val :=
  match table with
  | [] => None
  | (o, n) :: table' =>
      if bool_decide (n = new) then
        match dict_get o kwargs with
        | Some v => Some v
        | None => first_alias table' new kwargs
        end
      else first_alias table' new kwargs
  end.

(** The current name a key belongs to: the replacement of a deprecated
    name, or the key itself when it is a replacement. *)
Definition group_of (table : list (string * string)) (k : string) : option string :=
  match list_find (λ p, p.1 = k) table with
  | Some (_, (_, n)) => Some n
  | None => if bool_decide (k ∈ table.*2) then Some k else None
  end.

(** What [compat_kwargs] leaves under a key: the value of the first
    deprecated name of the key's setting that was passed, if the key belongs
    to a renamed setting and one of its deprecated names was passed; what
    was passed under the key otherwise. *)
Definition renamed_value (table : list (string * string))
    (kwargs : list (string * val)) (k : string) : option val :=
  match group_of table k with
  | Some n =>
      match first_alias table n kwargs with
      | Some v => Some v
      | None => dict_get k kwargs
      end
  | None => dict_get k kwargs
  end.

(** * Properties *)

(** ** The outcome monad *)

Lemma bind_Ok {A B} (m : result A) (k : A → result B) (b : B) :
  m ≫= k = Ok b ↔ ∃ a, m = Ok a ∧ k a = Ok b.
Proof.
  destruct m as [a| |]; simpl; split.
  - intros H. by exists a.
  - by intros (a' & [= <-] & H).
  - discriminate.
  - by intros (a' & [=] & _).
  - discriminate.
  - by intros (a' & [=] & _).
Qed.

Ltac inv_bind H :=
  let a := fresh "r" in
  let E := fresh "E" in
  apply bind_Ok in H; destruct H as (a & E & H).

(** ** Equality *)

Lemma scalar_eq_refl (a : val) : (∀ l, a ≠ VRef l) → scalar_eq a a = true.
Proof.
  destruct a as [ |b|n|s|i|l]; simpl; intros H; try done.
  - by destruct b.
  - apply Z.eqb_refl.
  - by apply bool_decide_eq_true.
  - by destruct (H l).
Qed.

Lemma py_eq_Missing_l (fuel : nat) (h : heap) (i : nat) (v : val) :
  py_eq fuel h (VMissing i) v = Ok (Missing.isinstance v).
Proof. by destruct fuel, v. Qed.

Lemma py_eq_Missing_r (fuel : nat) (h : heap) (i : nat) (v : val) :
  py_eq fuel h v (VMissing i) = Ok (Missing.isinstance v).
Proof. by destruct fuel, v. Qed.

(** ** The list branch *)

Lemma merge_list_loop_all (f : nat) (lb : loc) (items ys : list val) (h : heap) :
  h !! lb = Some (OList ys) →
  merge_list_loop f lb false items h = Ok (<[lb := OList (reverse items ++ ys)]> h).
Proof.
  revert ys h. induction items as [|item rest IH]; intros ys h Hlb; simpl.
  - by rewrite insert_id.
  - rewrite Hlb. simpl.
    rewrite (IH (item :: ys)); last by rewrite lookup_insert_eq.
    by rewrite insert_insert_eq, reverse_cons, <- app_assoc.
Qed.

Lemma list_richcompare_loop_true (eq : val → val → result bool) (xs ys : list val) :
  Forall2 (λ x y, RichCompareBool eq x y = Ok true) xs ys →
  list_richcompare_loop eq xs ys = Ok true.
Proof.
  induction 1 as [|x y xs ys Hxy _ IH]; simpl; [done|].
  by rewrite Hxy.
Qed.

Lemma py_eq_lists_elementwise (f : nat) (h : heap) (la lb : loc) (xs ys : list val) :
  h !! la = Some (OList xs) → h !! lb = Some (OList ys) →
  Forall2 (λ x y, py_rich f h x y = Ok true) xs ys →
  py_eq (S f) h (VRef la) (VRef lb) = Ok true.
Proof.
  intros Ha Hb Hall. simpl. rewrite Ha, Hb. unfold list_richcompare.
  rewrite (Forall2_length _ _ _ Hall), Nat.eqb_refl. simpl.
  by apply list_richcompare_loop_true.
Qed.

Lemma object_merge_equal_lists (f : nat) (h : heap) (la lb : loc) (xs ys : list val) (u : bool) :
  h !! la = Some (OList xs) → h !! lb = Some (OList ys) →
  py_eq f h (VRef la) (VRef lb) = Ok true →
  object_merge (S f) (VRef la) (VRef lb) u h = Ok h.
Proof. intros Ha Hb Heq. simpl. by rewrite Ha, Hb, Heq. Qed.

Lemma object_merge_unequal_lists (f : nat) (h : heap) (la lb : loc) (xs ys : list val) :
  h !! la = Some (OList xs) → h !! lb = Some (OList ys) →
  py_eq f h (VRef la) (VRef lb) = Ok false →
  object_merge (S f) (VRef la) (VRef lb) false h = Ok (<[lb := OList (xs ++ ys)]> h).
Proof.
  intros Ha Hb Heq. simpl. rewrite Ha, Hb, Heq. simpl.
  rewrite (merge_list_loop_all _ _ _ ys); [|done].
  by rewrite reverse_involutive.
Qed.

(** C5: when [old] and [new] are lists that are element-wise equal,
    [old == new] holds and [object_merge(old, new, unique)] returns with the
    store unchanged, whatever [unique] is. *)
Theorem C5_equal_lists_unchanged
    (f : nat) (h : heap) (la lb : loc) (xs ys : list val) (unique : bool) :
  h !! la = Some (OList xs) → h !! lb = Some (OList ys) →
  Forall2 (λ x y, py_rich f h x y = Ok true) xs ys →
  py_eq (S f) h (VRef la) (VRef lb) = Ok true ∧
  object_merge (S (S f)) (VRef la) (VRef lb) unique h = Ok h.
Proof.
  intros Ha Hb Hall.
  assert (py_eq (S f) h (VRef la) (VRef lb) = Ok true) as Heq
    by by eapply py_eq_lists_elementwise.
  split; [done|]. by eapply object_merge_equal_lists.
Qed.

Lemma C5_equal_lists_unchanged_witness :
  object_merge 2 (VRef 0) (VRef 1) true Examples.equal_lists = Ok Examples.equal_lists.
Proof.
  apply (C5_equal_lists_unchanged 0 Examples.equal_lists 0 1 [VInt 1] [VInt 1] true).
  - reflexivity.
  - reflexivity.
  - repeat constructor.
Defined.

(** C1 as stated fails on equal lists: with [A = [1]] and [B = [1]] the call
    returns at the [old == new] test and [B] keeps its single item. *)
Lemma C1_equal_lists_counterexample :
  object_merge 2 (VRef 0) (VRef 1) false Examples.equal_lists = Ok Examples.equal_lists ∧
  Examples.equal_lists !! 0 = Some (OList [VInt 1]) ∧
  Examples.equal_lists !! 1 = Some (OList [VInt 1]) ∧
  Examples.equal_lists !! 1 ≠ Some (OList ([VInt 1] ++ [VInt 1])) ∧
  length [VInt 1] ≠ length [VInt 1] + length [VInt 1].
Proof. repeat split; try reflexivity; vm_compute; [discriminate | lia]. Qed.

(** C1 (amended): when [A] and [B] are lists with [A == B] false, or when
    [A] is empty, [object_merge(A, B)] with [unique=False] returns and leaves
    at [B] the items of [A] followed by the former items of [B]: the length
    is [len(A) + len(B)], the former [B] is the trailing part, and no other
    object changes. *)
Theorem C1_lists_prepended
    (f : nat) (h : heap) (la lb : loc) (xs ys : list val) :
  h !! la = Some (OList xs) → h !! lb = Some (OList ys) →
  py_eq f h (VRef la) (VRef lb) = Ok false ∨ (xs = [] ∧ 0 < f) →
  ∃ h', object_merge (S f) (VRef la) (VRef lb) false h = Ok h' ∧
        h' !! lb = Some (OList (xs ++ ys)) ∧
        length (xs ++ ys) = length xs + length ys ∧
        drop (length xs) (xs ++ ys) = ys ∧
        take (length xs) (xs ++ ys) = xs ∧
        ∀ l, l ≠ lb → h' !! l = h !! l.
Proof.
  intros Ha Hb Hne.
  assert (object_merge (S f) (VRef la) (VRef lb) false h
          = Ok (<[lb := OList (xs ++ ys)]> h)) as Hrun.
  { destruct Hne as [Hne|[-> Hf]]; [by eapply object_merge_unequal_lists|].
    destruct f as [|f]; [lia|].
    destruct (py_eq (S f) h (VRef la) (VRef lb)) as [[]| |] eqn:Heq.
    - rewrite (object_merge_equal_lists _ _ _ _ [] ys) by done.
      by rewrite insert_id.
    - by eapply object_merge_unequal_lists.
    - simpl in Heq. rewrite Ha, Hb in Heq. unfold list_richcompare in Heq.
      destruct ys; simpl in Heq; discriminate.
    - simpl in Heq. rewrite Ha, Hb in Heq. unfold list_richcompare in Heq.
      destruct ys; simpl in Heq; discriminate. }
  eexists. split; [exact Hrun|].
  rewrite lookup_insert_eq, length_app, drop_app_length, take_app_length.
  repeat split; try done.
  intros l Hl. by rewrite lookup_insert_ne.
Qed.

Lemma C1_lists_prepended_witness :
  ∃ h', object_merge 2 (VRef 0) (VRef 1) false Examples.unique_lists = Ok h' ∧
        h' !! 1 = Some (OList [VStr "a"; VStr "b"; VStr "b"; VStr "c"]).
Proof.
  destruct (C1_lists_prepended 1 Examples.unique_lists 0 1
              [VStr "a"; VStr "b"] [VStr "b"; VStr "c"])
    as (h' & Hrun & Hlb & _).
  - reflexivity.
  - reflexivity.
  - left. reflexivity.
  - exists h'. split; [exact Hrun | exact Hlb].
Defined.

(** ** The sentinel *)

(** C9: [bool(missing)] is False; [missing == m] is True for every instance
    [m] of Missing, whatever its identity; [missing == None] is False; and
    in general [missing == v] and [v == missing] hold exactly when [v] is an
    instance of Missing. *)
Theorem C9_missing_sentinel :
  (∀ h, py_bool h missing = false) ∧
  (∀ f h i, py_eq f h missing (VMissing i) = Ok true) ∧
  (∀ i, py_is missing (VMissing (S i)) = false) ∧
  (∀ f h, py_eq f h missing VNone = Ok false) ∧
  (∀ f h v, py_eq f h missing v = Ok (Missing.isinstance v)) ∧
  (∀ f h v, py_eq f h v missing = Ok (Missing.isinstance v)).
Proof.
  split_and!; intros; try done;
    first [apply py_eq_Missing_l | apply py_eq_Missing_r].
Qed.

(** ** A larger budget does not change a result *)

Section oracle_mono.
Variables eq1 eq2 : val → val → result bool.
Hypothesis eq_mono : ∀ a b r, eq1 a b = Ok r → eq2 a b = Ok r.

Lemma RichCompareBool_mono a b r :
  RichCompareBool eq1 a b = Ok r → RichCompareBool eq2 a b = Ok r.
Proof. unfold RichCompareBool. destruct (py_is a b); auto. Qed.

Lemma list_richcompare_loop_mono xs ys r :
  list_richcompare_loop eq1 xs ys = Ok r → list_richcompare_loop eq2 xs ys = Ok r.
Proof.
  revert ys. induction xs as [|x xs IH]; intros [|y ys]; simpl; try done.
  intros H. inv_bind H. rewrite (RichCompareBool_mono _ _ _ E). simpl.
  destruct r0; auto.
Qed.

Lemma list_richcompare_mono xs ys r :
  list_richcompare eq1 xs ys = Ok r → list_richcompare eq2 xs ys = Ok r.
Proof.
  unfold list_richcompare. destruct (negb _); [done|].
  apply list_richcompare_loop_mono.
Qed.

Lemma dict_equal_loop_mono ea eb r :
  dict_equal_loop eq1 ea eb = Ok r → dict_equal_loop eq2 ea eb = Ok r.
Proof.
  induction ea as [|[k av] ea IH]; simpl; [done|].
  destruct (dict_get k eb) as [bv|]; [|done].
  intros H. inv_bind H. rewrite (RichCompareBool_mono _ _ _ E). simpl.
  destruct r0; auto.
Qed.

Lemma dict_equal_mono ea eb r :
  dict_equal eq1 ea eb = Ok r → dict_equal eq2 ea eb = Ok r.
Proof.
  unfold dict_equal. destruct (negb _); [done|].
  apply dict_equal_loop_mono.
Qed.

Lemma list_contains_mono items el r :
  list_contains eq1 items el = Ok r → list_contains eq2 items el = Ok r.
Proof.
  induction items as [|x items IH]; simpl; [done|].
  intros H. inv_bind H. rewrite (RichCompareBool_mono _ _ _ E). simpl.
  destruct r0; auto.
Qed.
End oracle_mono.

Lemma py_eq_S (f : nat) (h : heap) (a b : val) (r : bool) :
  py_eq f h a b = Ok r → py_eq (S f) h a b = Ok r.
Proof.
  revert a b r. induction f as [|f IH]; intros a b r.
  - destruct a, b; simpl; try done.
  - destruct a as [ | | | | |la], b as [ | | | | |lb]; try done.
    intros H. simpl in H. change (py_eq (S (S f)) h (VRef la) (VRef lb)) with
      (match h !! la, h !! lb with
       | Some (OList xs), Some (OList ys) => list_richcompare (py_eq (S f) h) xs ys
       | Some (ODict ea), Some (ODict eb) => dict_equal (py_eq (S f) h) ea eb
       | _, _ => Ok (py_is (VRef la) (VRef lb))
       end).
    destruct (h !! la) as [[xs|ea]|], (h !! lb) as [[ys|eb]|]; try done.
    + by eapply list_richcompare_mono.
    + by eapply dict_equal_mono.
Qed.

Lemma py_eq_fuel_mono (f f' : nat) (h : heap) (a b : val) (r : bool) :
  f ≤ f' → py_eq f h a b = Ok r → py_eq f' h a b = Ok r.
Proof. induction 1 as [|f' _ IH]; [done|]. intros Heq. by apply py_eq_S, IH. Qed.

Lemma merge_list_loop_mono (f f' : nat) (ln : loc) (u : bool)
    (items : list val) (h h' : heap) :
  f ≤ f' →
  merge_list_loop f ln u items h = Ok h' → merge_list_loop f' ln u items h = Ok h'.
Proof.
  intros Hf. revert h. induction items as [|item rest IH]; intros h; simpl; [done|].
  destruct (h !! ln) as [[ys|]|]; try done.
  intros H. inv_bind H.
  assert ((if u then py_contains f' h ys item else Ok false) = Ok r) as ->.
  { destruct u; [|done]. revert E. apply list_contains_mono.
    intros a b r'. by apply py_eq_fuel_mono. }
  simpl. destruct r; auto.
Qed.

Lemma merge_dict_loop_mono (rec1 rec2 : val → val → bool → heap → result heap)
    (lo ln : loc) (size0 pos todo : nat) (h h' : heap) :
  (∀ o n u h1 h2, rec1 o n u h1 = Ok h2 → rec2 o n u h1 = Ok h2) →
  merge_dict_loop rec1 lo ln size0 pos todo h = Ok h' →
  merge_dict_loop rec2 lo ln size0 pos todo h = Ok h'.
Proof.
  intros Hrec. revert pos h. induction todo as [|todo IH]; intros pos h; simpl.
  - done.
  - destruct (h !! lo) as [[|eo]|]; try done.
    destruct (negb _); [done|].
    destruct (eo !! pos) as [[key value]|]; [|done].
    destruct (h !! ln) as [[|en]|]; try done.
    intros H. inv_bind H.
    destruct (dict_get key en) as [nv|].
    + rewrite (Hrec _ _ _ _ _ E). simpl. auto.
    + rewrite E. simpl. auto.
Qed.

Lemma object_merge_S (f : nat) (o n : val) (u : bool) (h h' : heap) :
  object_merge f o n u h = Ok h' → object_merge (S f) o n u h = Ok h'.
Proof.
  revert o n u h h'. induction f as [|f IH]; intros o n u h h'; [done|].
  intros H. simpl in H.
  change (object_merge (S (S f)) o n u h) with
    (match o, n with
     | VRef lo, VRef ln =>
         match h !! lo, h !! ln with
         | Some (OList xs), Some (OList ys) =>
             same ← py_eq (S f) h o n;
             if same : bool then Ok h
             else merge_list_loop (S f) ln u (reverse xs) h
         | Some (ODict eo), Some (ODict en) =>
             merge_dict_loop (object_merge (S f)) lo ln (length eo) 0 (length eo) h
         | _, _ => Ok h
         end
     | _, _ => Ok h
     end).
  destruct o as [ | | | | |lo], n as [ | | | | |ln]; try done.
  destruct (h !! lo) as [[xs|eo]|], (h !! ln) as [[ys|en]|]; try done.
  - inv_bind H. rewrite (py_eq_S _ _ _ _ _ E). simpl.
    destruct r; [done|]. revert H. apply merge_list_loop_mono. lia.
  - revert H. apply merge_dict_loop_mono. intros. by apply IH.
Qed.

Lemma object_merge_fuel_mono (f k : nat) (o n : val) (u : bool) (h h' : heap) :
  object_merge f o n u h = Ok h' → object_merge (k + f) o n u h = Ok h'.
Proof. intros H. induction k; [done|]. by apply object_merge_S. Qed.

(** ** Objects only grow *)

Lemma obj_le_refl (o : obj) : obj_le o o.
Proof. destruct o; simpl; reflexivity. Qed.

Lemma obj_le_trans (o1 o2 o3 : obj) : obj_le o1 o2 → obj_le o2 o3 → obj_le o1 o3.
Proof.
  destruct o1, o2, o3; simpl; try done.
  - intros [k1 ->] [k2 ->]. exists (k2 ++ k1). by rewrite app_assoc.
  - intros [k1 ->] [k2 ->]. exists (k1 ++ k2). by rewrite app_assoc.
Qed.

Lemma heap_le_refl (h : heap) : heap_le h h.
Proof.
  intros l. destruct (h !! l) as [o|] eqn:E; [|done].
  exists o. split; [done|]. apply obj_le_refl.
Qed.

Lemma heap_le_trans (h1 h2 h3 : heap) : heap_le h1 h2 → heap_le h2 h3 → heap_le h1 h3.
Proof.
  intros H12 H23 l. specialize (H12 l). specialize (H23 l).
  destruct (h1 !! l) as [o1|].
  - destruct H12 as (o2 & E2 & Hle12). rewrite E2 in H23.
    destruct H23 as (o3 & E3 & Hle23). exists o3. split; [done|].
    by eapply obj_le_trans.
  - by rewrite H12 in H23.
Qed.

Lemma heap_le_insert (h : heap) (l : loc) (o o' : obj) :
  h !! l = Some o → obj_le o o' → heap_le h (<[l := o']> h).
Proof.
  intros Hl Hle l'. destruct (decide (l = l')) as [<-|Hne].
  - rewrite Hl, lookup_insert_eq. by exists o'.
  - rewrite lookup_insert_ne by done. destruct (h !! l') as [o1|] eqn:E; [|done].
    exists o1. split; [done|]. apply obj_le_refl.
Qed.

Lemma heap_le_list (h h' : heap) (l : loc) (xs : list val) :
  heap_le h h' → h !! l = Some (OList xs) →
  ∃ pre, h' !! l = Some (OList (pre ++ xs)).
Proof.
  intros Hle Hl. specialize (Hle l). rewrite Hl in Hle.
  destruct Hle as ([xs'|] & E & Hle); [|done].
  destruct Hle as [pre ->]. by exists pre.
Qed.

Lemma heap_le_dict (h h' : heap) (l : loc) (e : list (string * val)) :
  heap_le h h' → h !! l = Some (ODict e) →
  ∃ ext, h' !! l = Some (ODict (e ++ ext)).
Proof.
  intros Hle Hl. specialize (Hle l). rewrite Hl in Hle.
  destruct Hle as ([|e'] & E & Hle); [done|].
  destruct Hle as [ext ->]. by exists ext.
Qed.

Lemma merge_list_loop_grows (f : nat) (ln : loc) (u : bool)
    (items : list val) (h h' : heap) :
  merge_list_loop f ln u items h = Ok h' → heap_le h h'.
Proof.
  revert h. induction items as [|item rest IH]; intros h; simpl.
  - intros [= <-]. apply heap_le_refl.
  - destruct (h !! ln) as [[ys|]|] eqn:Hln; try done.
    intros H. inv_bind H. destruct r; [by apply IH|].
    eapply heap_le_trans; [|by apply IH].
    eapply heap_le_insert; [done|]. simpl. by exists [item].
Qed.

Lemma merge_dict_loop_grows (rec : val → val → bool → heap → result heap)
    (lo ln : loc) (size0 pos todo : nat) (h h' : heap) :
  (∀ o n u h1 h2, rec o n u h1 = Ok h2 → heap_le h1 h2) →
  merge_dict_loop rec lo ln size0 pos todo h = Ok h' → heap_le h h'.
Proof.
  intros Hrec. revert pos h. induction todo as [|todo IH]; intros pos h; simpl.
  - destruct (h !! lo) as [[|eo]|]; try done.
    destruct (negb _); [done|]. intros [= <-]. apply heap_le_refl.
  - destruct (h !! lo) as [[|eo]|]; try done.
    destruct (negb _); [done|].
    destruct (eo !! pos) as [[key value]|]; [|intros [= <-]; apply heap_le_refl].
    destruct (h !! ln) as [[|en]|] eqn:Hln; try done.
    intros H. inv_bind H. eapply heap_le_trans; [|by eapply IH].
    destruct (dict_get key en) as [nv|]; [by eapply Hrec|].
    injection E as <-. eapply heap_le_insert; [done|].
    simpl. by exists [(key, value)].
Qed.

(** Whatever the aliasing, a call that returns has only prepended items to
    lists and appended new keys to dicts. *)
Lemma object_merge_grows (f : nat) (o n : val) (u : bool) (h h' : heap) :
  object_merge f o n u h = Ok h' → heap_le h h'.
Proof.
  revert o n u h h'. induction f as [|f IH]; intros o n u h h'; [done|].
  simpl. destruct o as [ | | | | |lo], n as [ | | | | |ln];
    try (intros [= <-]; apply heap_le_refl).
  destruct (h !! lo) as [[xs|eo]|], (h !! ln) as [[ys|en]|];
    try (intros [= <-]; apply heap_le_refl).
  - intros H. inv_bind H. destruct r.
    + injection H as <-. apply heap_le_refl.
    + by eapply merge_list_loop_grows.
  - apply merge_dict_loop_grows. intros. by eapply IH.
Qed.

(** ** Dict lookup *)

Lemma dict_get_None (k : string) (e : list (string * val)) :
  dict_get k e = None ↔ k ∉ e.*1.
Proof.
  induction e as [|[k' v] e IH]; simpl.
  - split; [|done]. intros _. apply not_elem_of_nil.
  - rewrite not_elem_of_cons. case_bool_decide as Hk; subst.
    + split; [done|]. by intros [? _].
    + rewrite IH. split; [by intros ?; split | by intros [_ ?]].
Qed.

Lemma dict_get_is_Some (k : string) (e : list (string * val)) :
  is_Some (dict_get k e) ↔ k ∈ e.*1.
Proof.
  rewrite <- not_eq_None_Some, dict_get_None.
  split; [|by auto]. intros H. by destruct (decide (k ∈ e.*1)).
Qed.

Lemma dict_get_elem_of (k : string) (v : val) (e : list (string * val)) :
  dict_get k e = Some v → (k, v) ∈ e.
Proof.
  induction e as [|[k' v'] e IH]; simpl; [done|].
  case_bool_decide as Hk; subst.
  - intros [= ->]. left.
  - intros H. right. auto.
Qed.

Lemma dict_get_app_l (k : string) (v : val) (e ext : list (string * val)) :
  dict_get k e = Some v → dict_get k (e ++ ext) = Some v.
Proof.
  induction e as [|[k' v'] e IH]; simpl; [done|].
  by case_bool_decide.
Qed.

Lemma dict_get_app_r (k : string) (e ext : list (string * val)) :
  dict_get k e = None → dict_get k (e ++ ext) = dict_get k ext.
Proof.
  induction e as [|[k' v'] e IH]; simpl; [done|].
  by case_bool_decide.
Qed.

Lemma dict_get_lookup (e : list (string * val)) (i : nat) (k : string) (v : val) :
  NoDup e.*1 → e !! i = Some (k, v) → dict_get k e = Some v.
Proof.
  revert i. induction e as [|[k' v'] e IH]; intros [|i]; simpl; try done.
  - intros _ [= -> ->]. by rewrite bool_decide_eq_true_2.
  - rewrite NoDup_cons. intros [Hk' Hnd] Hi.
    rewrite bool_decide_eq_false_2; [by eapply IH|].
    intros ->. apply Hk'. apply list_elem_of_fmap. exists (k, v). split; [done|].
    by eapply list_elem_of_lookup_2.
Qed.

(** ** The dict branch: keys *)



Lemma merge_dict_loop_fresh (rec : val → val → bool → heap → result heap)
    (lo ln : loc) (eo : list (string * val)) (pos todo : nat)
    (en : list (string * val)) (h : heap) :
  lo ≠ ln →
  h !! lo = Some (ODict eo) → h !! ln = Some (ODict en) →
  pos + todo = length eo →
  (∀ k, k ∈ (drop pos eo).*1 → k ∉ en.*1) →
  NoDup (drop pos eo).*1 →
  merge_dict_loop rec lo ln (length eo) pos todo h
  = Ok (<[ln := ODict (en ++ drop pos eo)]> h).
Proof.
  intros Hne. revert pos en h.
  induction todo as [|todo IH]; intros pos en h Hlo Hln Hpos Hfresh Hnd.
  - simpl. rewrite Hlo, Nat.eqb_refl. simpl.
    rewrite drop_ge by lia. by rewrite app_nil_r, insert_id.
  - simpl. rewrite Hlo, Nat.eqb_refl. simpl.
    destruct (eo !! pos) as [[key value]|] eqn:Hpos_eo; last first.
    { apply lookup_ge_None in Hpos_eo. lia. }
    rewrite Hln. rewrite (drop_S _ _ _ Hpos_eo) in Hfresh, Hnd |- *.
    simpl in Hfresh, Hnd. apply NoDup_cons in Hnd as [Hkey Hnd].
    assert (dict_get key en = None) as ->.
    { apply dict_get_None, Hfresh. left. }
    simpl. rewrite (IH (S pos) (en ++ [(key, value)])).
    + by rewrite insert_insert_eq, <- app_assoc.
    + by rewrite lookup_insert_ne.
    + by rewrite lookup_insert_eq.
    + lia.
    + intros k Hk. rewrite fmap_app, elem_of_app. simpl.
      intros [Hin|Hin%list_elem_of_singleton].
      * revert Hin. apply Hfresh. by right.
      * by subst.
    + done.
Qed.

(** ** The end-to-end scenario *)

(** C3: with [old = {"a": [1,2], "b": {"x": 1}}] and
    [new = {"a": [3], "b": {"y": 2}}], [object_merge(old, new)] returns and
    leaves [old]'s list items before [3] in [new["a"]] and the key ["x"]
    added to [new["b"]]; afterwards
    [new == {"a": [1,2,3], "b": {"x": 1, "y": 2}}] is True. *)
Theorem C3_end_to_end_scenario (f : nat) :
  let after : heap :=
    <[4 := OList [VInt 1; VInt 2; VInt 3]]>
      (<[5 := ODict [("y"%string, VInt 2); ("x"%string, VInt 1)]]> Examples.scenario) in
  object_merge (f + 3) (VRef 0) (VRef 3) false Examples.scenario = Ok after ∧
  after !! 3 = Some (ODict [("a"%string, VRef 4); ("b"%string, VRef 5)]) ∧
  py_eq (f + 2) after (VRef 3) (VRef 6) = Ok true.
Proof.
  split_and!.
  - apply object_merge_fuel_mono. vm_compute. reflexivity.
  - vm_compute. reflexivity.
  - apply (py_eq_fuel_mono 2); [lia|]. vm_compute. reflexivity.
Qed.

(** ** The [unique] flag below a dict *)






(** ** Comparisons depend on the operands' footprints only *)

Section oracle_ext.
Variables eq1 eq2 : val → val → result bool.

Lemma list_richcompare_loop_ext xs ys :
  (∀ x y, x ∈ xs → y ∈ ys → eq1 x y = eq2 x y) →
  list_richcompare_loop eq1 xs ys = list_richcompare_loop eq2 xs ys.
Proof.
  revert ys. induction xs as [|x xs IH]; intros [|y ys] Hext; simpl; try done.
  unfold RichCompareBool. rewrite (Hext x y) by left.
  destruct (py_is x y); simpl.
  - apply IH. intros. apply Hext; by right.
  - destruct (eq2 x y) as [[]| |]; simpl; try done.
    apply IH. intros. apply Hext; by right.
Qed.

Lemma dict_get_elem_of_values k v (e : list (string * val)) :
  dict_get k e = Some v → v ∈ e.*2.
Proof.
  intros H%dict_get_elem_of. apply list_elem_of_fmap. by exists (k, v).
Qed.

Lemma dict_equal_loop_ext ea eb :
  (∀ x y, x ∈ ea.*2 → y ∈ eb.*2 → eq1 x y = eq2 x y) →
  dict_equal_loop eq1 ea eb = dict_equal_loop eq2 ea eb.
Proof.
  induction ea as [|[k av] ea IH]; intros Hext; simpl; [done|].
  destruct (dict_get k eb) as [bv|] eqn:Hget; [|done].
  unfold RichCompareBool.
  rewrite (Hext av bv); [|by left|by eapply dict_get_elem_of_values].
  destruct (py_is av bv); simpl.
  - apply IH. intros. apply Hext; [by right|done].
  - destruct (eq2 av bv) as [[]| |]; simpl; try done.
    apply IH. intros. apply Hext; [by right|done].
Qed.

Lemma list_contains_ext items el :
  (∀ x, x ∈ items → eq1 x el = eq2 x el) →
  list_contains eq1 items el = list_contains eq2 items el.
Proof.
  induction items as [|x items IH]; intros Hext; simpl; [done|].
  unfold RichCompareBool. rewrite (Hext x) by left.
  destruct (py_is x el); simpl; [done|].
  destruct (eq2 x el) as [[]| |]; simpl; try done.
  apply IH. intros. apply Hext. by right.
Qed.
End oracle_ext.

Section oracle_total.
Variable eq : val → val → result bool.

Lemma list_richcompare_loop_total xs ys :
  (∀ x y, x ∈ xs → y ∈ ys → ∃ r, eq x y = Ok r) →
  ∃ r, list_richcompare_loop eq xs ys = Ok r.
Proof.
  revert ys. induction xs as [|x xs IH]; intros [|y ys] Htot; simpl; eauto.
  assert (∃ r, list_richcompare_loop eq xs ys = Ok r) as [r' Hr'].
  { apply IH. intros. apply Htot; by right. }
  unfold RichCompareBool. destruct (py_is x y); simpl; [eauto|].
  destruct (Htot x y) as [[] ->]; simpl; eauto; by left.
Qed.

Lemma dict_equal_loop_total ea eb :
  (∀ x y, x ∈ ea.*2 → y ∈ eb.*2 → ∃ r, eq x y = Ok r) →
  ∃ r, dict_equal_loop eq ea eb = Ok r.
Proof.
  induction ea as [|[k av] ea IH]; intros Htot; simpl; eauto.
  assert (∃ r, dict_equal_loop eq ea eb = Ok r) as [r' Hr'].
  { apply IH. intros. apply Htot; [by right|done]. }
  destruct (dict_get k eb) as [bv|] eqn:Hget; eauto.
  unfold RichCompareBool. destruct (py_is av bv); simpl; [eauto|].
  destruct (Htot av bv) as [[] ->]; simpl; eauto;
    [by left | by eapply dict_get_elem_of_values].
Qed.

Lemma list_contains_total items el :
  (∀ x, x ∈ items → ∃ r, eq x el = Ok r) →
  ∃ r, list_contains eq items el = Ok r.
Proof.
  induction items as [|x items IH]; intros Htot; simpl; eauto.
  assert (∃ r, list_contains eq items el = Ok r) as [r' Hr'].
  { apply IH. intros. apply Htot. by right. }
  unfold RichCompareBool. destruct (py_is x el); simpl; [eauto|].
  destruct (Htot x) as [[] ->]; simpl; eauto; by left.
Qed.
End oracle_total.

(** ** Footprints *)

Lemma locs_0 (h : heap) (v : val) (L : list loc) :
  locs 0 h v = Some L → L = [] ∧ ∀ l, v ≠ VRef l.
Proof. destruct v; simpl; intros [=]; by subst. Qed.

Lemma locs_scalar (d : nat) (h : heap) (v : val) :
  (∀ l, v ≠ VRef l) → locs d h v = Some [].
Proof. destruct v, d; simpl; try done; intros H; by destruct (H l). Qed.

Lemma locs_ref (d : nat) (h : heap) (l : loc) (L : list loc) :
  locs (S d) h (VRef l) = Some L ↔
  ∃ o Ls, h !! l = Some o ∧
          Forall2 (λ v Lv, locs d h v = Some Lv) (children o) Ls ∧
          L = l :: mjoin Ls.
Proof.
  simpl. split.
  - destruct (h !! l) as [o|]; simpl; [|done].
    destruct (mapM (locs d h) (children o)) as [Ls|] eqn:HLs; simpl; [|done].
    intros [= <-]. exists o, Ls. by apply mapM_Some in HLs.
  - intros (o & Ls & -> & HLs & ->). simpl.
    apply mapM_Some in HLs. by rewrite HLs.
Qed.

Lemma locs_ref_0 (h : heap) (l : loc) : locs 0 h (VRef l) = None.
Proof. done. Qed.

Lemma Forall2_impl_elem {A B} (P Q : A → B → Prop) (l : list A) (k : list B) :
  Forall2 P l k → (∀ x y, x ∈ l → y ∈ k → P x y → Q x y) → Forall2 Q l k.
Proof.
  induction 1 as [|x y l k Hxy _ IH]; intros Himp; constructor.
  - apply Himp; [left|left|done].
  - apply IH. intros. apply Himp; [by right|by right|done].
Qed.

(** A child's footprint is part of its parent's. *)
Lemma Forall2_locs_child (d : nat) (h : heap) (vs : list val)
    (Ls : list (list loc)) (v : val) :
  Forall2 (λ v Lv, locs d h v = Some Lv) vs Ls → v ∈ vs →
  ∃ Lv, locs d h v = Some Lv ∧ Lv ∈ Ls ∧ Lv ⊆ mjoin Ls.
Proof.
  intros HF (i & Hi)%list_elem_of_lookup.
  destruct (Forall2_lookup_l _ _ _ _ _ HF Hi) as (Lv & HLv & Hlocs).
  exists Lv. split_and!; [done|by eapply list_elem_of_lookup_2|].
  intros x Hx. apply list_elem_of_join. exists Lv. split; [done|].
  by eapply list_elem_of_lookup_2.
Qed.

Lemma locs_frame (d : nat) (h h1 : heap) (v : val) (L : list loc) :
  locs d h v = Some L → (∀ l, l ∈ L → h1 !! l = h !! l) →
  locs d h1 v = Some L.
Proof.
  revert v L. induction d as [|d IH]; intros v L Hlocs Hsame.
  - destruct v; done.
  - destruct v as [ | | | | |l]; try done.
    apply locs_ref in Hlocs as (o & Ls & Hl & HLs & ->).
    apply locs_ref. exists o, Ls. split_and!; [|  |done].
    + rewrite Hsame; [done|left].
    + eapply Forall2_impl_elem; [exact HLs|]. intros c Lc _ HLc Hc.
      apply IH; [done|]. intros l' Hl'. apply Hsame. right.
      apply list_elem_of_join. by exists Lc.
Qed.

Lemma py_eq_total (d : nat) (h : heap) (a b : val) (La Lb : list loc) :
  locs d h a = Some La → locs d h b = Some Lb →
  ∃ r, py_eq d h a b = Ok r.
Proof.
  revert a b La Lb. induction d as [|d IH]; intros a b La Lb Ha Hb.
  - destruct a, b; simpl; eauto; done.
  - destruct a as [ | | | | |la], b as [ | | | | |lb]; simpl; eauto.
    apply locs_ref in Ha as (oa & Lsa & Hla & HLsa & ->).
    apply locs_ref in Hb as (ob & Lsb & Hlb & HLsb & ->).
    rewrite Hla, Hlb.
    assert (∀ x y, x ∈ children oa → y ∈ children ob →
                   ∃ r, py_eq d h x y = Ok r) as Htot.
    { intros x y Hx Hy.
      destruct (Forall2_locs_child _ _ _ _ _ HLsa Hx) as (Lx & HLx & _).
      destruct (Forall2_locs_child _ _ _ _ _ HLsb Hy) as (Ly & HLy & _).
      by eapply IH. }
    destruct oa as [xs|ea], ob as [ys|eb]; simpl in Htot; eauto.
    + unfold list_richcompare. destruct (negb _); eauto.
      by apply list_richcompare_loop_total.
    + unfold dict_equal. destruct (negb _); eauto.
      by apply dict_equal_loop_total.
Qed.

Lemma py_eq_frame (f d : nat) (h h1 : heap) (a b : val) (La Lb : list loc) :
  locs d h a = Some La → locs d h b = Some Lb →
  (∀ l, l ∈ La ++ Lb → h1 !! l = h !! l) →
  py_eq f h1 a b = py_eq f h a b.
Proof.
  revert d a b La Lb. induction f as [|f IH]; intros d a b La Lb Ha Hb Hsame.
  - by destruct a, b.
  - destruct a as [ | | | | |la], b as [ | | | | |lb]; try done.
    destruct d as [|d]; [done|].
    apply locs_ref in Ha as (oa & Lsa & Hla & HLsa & ->).
    apply locs_ref in Hb as (ob & Lsb & Hlb & HLsb & ->).
    simpl. rewrite !Hsame, Hla, Hlb;
      [|apply elem_of_app; right; left|apply elem_of_app; left; left].
    assert (∀ x y, x ∈ children oa → y ∈ children ob →
                   py_eq f h1 x y = py_eq f h x y) as Hext.
    { intros x y Hx Hy.
      destruct (Forall2_locs_child _ _ _ _ _ HLsa Hx) as (Lx & HLx & _ & Hsubx).
      destruct (Forall2_locs_child _ _ _ _ _ HLsb Hy) as (Ly & HLy & _ & Hsuby).
      eapply IH; [done|done|]. intros l [Hl|Hl]%elem_of_app; apply Hsame.
      - apply elem_of_app. left. right. by apply Hsubx.
      - apply elem_of_app. right. right. by apply Hsuby. }
    destruct oa as [xs|ea], ob as [ys|eb]; simpl in Hext; try done.
    + unfold list_richcompare. destruct (negb _); [done|].
      by apply list_richcompare_loop_ext.
    + unfold dict_equal. destruct (negb _); [done|].
      by apply dict_equal_loop_ext.
Qed.

(** ** What a call can write to *)

Lemma elem_of_touched_entries (rec : val → val → list loc)
    (en eo : list (string * val)) (l : loc) :
  l ∈ touched_entries rec en eo ↔
  ∃ k ov nv, (k, ov) ∈ eo ∧ dict_get k en = Some nv ∧ l ∈ rec ov nv.
Proof.
  unfold touched_entries. rewrite list_elem_of_join. split.
  - intros (T & Hl & HT).
    apply list_elem_of_fmap in HT as ([k ov] & -> & Hkv). simpl in Hl.
    destruct (dict_get k en) as [nv|] eqn:Hget; [|by apply elem_of_nil in Hl].
    by exists k, ov, nv.
  - intros (k & ov & nv & Hkv & Hget & Hl). exists (rec ov nv). split; [done|].
    apply list_elem_of_fmap. exists (k, ov). simpl. by rewrite Hget.
Qed.

Lemma touched_subseteq (d : nat) (h : heap) (o n : val) (Ln : list loc) :
  locs d h n = Some Ln → touched d h o n ⊆ Ln.
Proof.
  revert o n Ln. induction d as [|d IH]; intros o n Ln Hn; simpl.
  - apply list_subseteq_nil.
  - destruct o as [ | | | | |lo], n as [ | | | | |ln]; try apply list_subseteq_nil.
    apply locs_ref in Hn as (on & Lsn & Hln & HLsn & ->). rewrite Hln.
    destruct (h !! lo) as [[xs|eo]|], on as [ys|en]; try apply list_subseteq_nil.
    + intros l ->%list_elem_of_singleton. left.
    + intros l [->|Hl]%elem_of_cons; [left|right].
      apply elem_of_touched_entries in Hl as (k & ov & nv & Hkv & Hget & Hl).
      apply dict_get_elem_of_values in Hget.
      destruct (Forall2_locs_child _ _ _ _ _ HLsn Hget) as (Lnv & HLnv & _ & Hsub).
      apply Hsub. by eapply IH.
Qed.


(** ** The list branch with [unique=True] *)

Lemma RichCompareBool_refl (eq : val → val → result bool) (x : val) :
  RichCompareBool eq x x = Ok true.
Proof. unfold RichCompareBool, py_is. by rewrite bool_decide_eq_true_2. Qed.

Lemma list_contains_false (eq : val → val → result bool) (items : list val) (el : val) :
  list_contains eq items el = Ok false ↔
  Forall (λ x, RichCompareBool eq x el = Ok false) items.
Proof.
  induction items as [|x items IH]; simpl.
  - split; [constructor|done].
  - rewrite Forall_cons, <- IH.
    destruct (RichCompareBool eq x el) as [[]| |]; simpl;
      split; try done; by intros [? ?].
Qed.

Lemma list_contains_true (eq : val → val → result bool) (items : list val) (el : val) :
  list_contains eq items el = Ok true →
  ∃ x, x ∈ items ∧ RichCompareBool eq x el = Ok true.
Proof.
  induction items as [|x items IH]; simpl; [done|].
  destruct (RichCompareBool eq x el) as [[]| |] eqn:E; simpl; try done.
  - intros _. exists x. split; [left|done].
  - intros (y & Hy & Hr)%IH. exists y. split; [by right|done].
Qed.

Section unique_prepend.
Variable eq : val → val → result bool.

(** What the loop leaves in [new]: a block [pre], taken in order from
    [old], in front of the former content; no item of the block is equal to
    an item that was in [new] or to another item of the block; and every
    item of [old] is equal to one in the result. *)
Lemma unique_prepend_spec (items cur zs : list val) :
  unique_prepend (list_contains eq) items cur = Ok zs →
  ∃ pre, zs = pre ++ cur ∧ pre `sublist_of` reverse items ∧
         (∀ p y, p ∈ pre → y ∈ cur → RichCompareBool eq y p = Ok false) ∧
         (∀ i j a b, i < j → pre !! i = Some a → pre !! j = Some b →
                     RichCompareBool eq b a = Ok false) ∧
         (∀ x, x ∈ items → ∃ z, z ∈ zs ∧ RichCompareBool eq z x = Ok true).
Proof.
  revert cur. induction items as [|item rest IH]; intros cur Hrun; simpl in Hrun.
  - injection Hrun as <-. exists []. split_and!; try done.
    + intros p y Hp. by apply elem_of_nil in Hp.
    + intros x Hx. by apply elem_of_nil in Hx.
  - inv_bind Hrun. destruct r.
    + destruct (IH _ Hrun) as (pre & -> & Hsub & Hcur & Hpre & Hcov).
      exists pre. split_and!; try done.
      * rewrite reverse_cons. by apply sublist_inserts_r.
      * intros x [->|Hx]%elem_of_cons; [|by apply Hcov].
        apply list_contains_true in E as (y & Hy & Hr).
        exists y. split; [|done]. apply elem_of_app. by right.
    + destruct (IH _ Hrun) as (pre & -> & Hsub & Hcur & Hpre & Hcov).
      apply list_contains_false in E.
      exists (pre ++ [item]). split_and!.
      * by rewrite <- app_assoc.
      * rewrite reverse_cons. by apply sublist_app.
      * intros p y [Hp|Hp%list_elem_of_singleton]%elem_of_app Hy.
        -- apply Hcur; [done|by right].
        -- subst p. by eapply Forall_forall in E.
      * intros i j a b Hij Ha Hb.
        apply lookup_app_Some in Hb as [Hb|[Hlen Hb]].
        -- pose proof (lookup_lt_Some _ _ _ Hb) as Hj.
           rewrite lookup_app_l in Ha by lia. exact (Hpre i j a b Hij Ha Hb).
        -- apply list_lookup_singleton_Some in Hb as [Hj ->].
           rewrite lookup_app_l in Ha by lia.
           apply Hcur; [by eapply list_elem_of_lookup_2|left].
      * intros x [->|Hx]%elem_of_cons; [|by apply Hcov].
        exists item. split; [|apply RichCompareBool_refl].
        apply elem_of_app. right. left.
Qed.

Lemma unique_prepend_total (items cur : list val) :
  (∀ x y, x ∈ items ++ cur → y ∈ items → ∃ r, eq x y = Ok r) →
  ∃ zs, unique_prepend (list_contains eq) items cur = Ok zs.
Proof.
  revert cur. induction items as [|item rest IH]; intros cur Htot; simpl; eauto.
  destruct (list_contains_total eq cur item) as [r ->].
  { intros x Hx. apply Htot; [|left]. apply elem_of_app. by right. }
  simpl. apply IH. intros x y Hx Hy. apply Htot; [|by right].
  apply elem_of_app in Hx as [Hx|Hx].
  - apply elem_of_app. left. by right.
  - destruct r; [apply elem_of_app; by right|].
    apply elem_of_cons in Hx as [->|Hx].
    + apply elem_of_app. left. left.
    + apply elem_of_app. by right.
Qed.
End unique_prepend.

(** On items that do not contain [new], the loop in the store computes
    [unique_prepend]. *)
Lemma merge_list_loop_unique (f d : nat) (h hc : heap) (ln : loc)
    (items cur : list val) :
  (∀ l, l ≠ ln → hc !! l = h !! l) → hc !! ln = Some (OList cur) →
  Forall (λ v, ∃ L, locs d h v = Some L ∧ ln ∉ L) items →
  Forall (λ v, ∃ L, locs d h v = Some L ∧ ln ∉ L) cur →
  merge_list_loop f ln true items hc
  = cur' ← unique_prepend (py_contains f h) items cur; Ok (<[ln := OList cur']> hc).
Proof.
  revert hc cur. induction items as [|item rest IH];
    intros hc cur Hsame Hln Hitems Hcur; simpl.
  - by rewrite insert_id.
  - rewrite Hln. apply Forall_cons in Hitems as [(Li & HLi & Hni) Hrest].
    assert (py_contains f hc cur item = py_contains f h cur item) as ->.
    { apply list_contains_ext. intros x Hx.
      eapply Forall_forall in Hcur as (Lx & HLx & Hnx); [|done].
      eapply py_eq_frame; [done|done|].
      intros l Hl. apply Hsame. intros ->. by apply elem_of_app in Hl as []. }
    destruct (py_contains f h cur item) as [[]| |]; simpl; try done.
    + by apply IH.
    + rewrite (IH _ (item :: cur)).
      * destruct (unique_prepend _ _ _); simpl; try done.
        by rewrite insert_insert_eq.
      * intros l Hl. by rewrite lookup_insert_ne; auto.
      * by rewrite lookup_insert_eq.
      * done.
      * apply Forall_cons. split; [by exists Li|done].
Qed.

(** ** Separated trees *)

Lemma NoDup_join_lookup {A} (Ls : list (list A)) (i j : nat) (X Y : list A) :
  NoDup (mjoin Ls) → Ls !! i = Some X → Ls !! j = Some Y → i ≠ j →
  ∀ x, x ∈ X → x ∉ Y.
Proof.
  revert i j. induction Ls as [|Z Ls IH]; intros i j Hnd Hi Hj Hij x HX HY; [done|].
  simpl in Hnd. apply NoDup_app in Hnd as (_ & Hdisj & Hnd).
  destruct i as [|i], j as [|j]; simpl in Hi, Hj; simplify_eq.
  - apply (Hdisj x HX). apply list_elem_of_join. exists Y.
    split; [done|]. by eapply list_elem_of_lookup_2.
  - apply (Hdisj x HY). apply list_elem_of_join. exists X.
    split; [done|]. by eapply list_elem_of_lookup_2.
  - eapply (IH i j); eauto.
Qed.

Lemma dict_get_Some_lookup (k : string) (v : val) (e : list (string * val)) :
  dict_get k e = Some v → ∃ i, e !! i = Some (k, v).
Proof. intros H%dict_get_elem_of. by apply list_elem_of_lookup. Qed.

Lemma NoDup_keys_take (e : list (string * val)) (pos : nat) (k : string) (v : val) :
  NoDup e.*1 → e !! pos = Some (k, v) → k ∉ (take pos e).*1.
Proof.
  intros Hnd Hpos Hin.
  apply list_elem_of_fmap in Hin as ([k' v'] & Hk & Hin). simpl in Hk. subst k'.
  apply list_elem_of_lookup in Hin as (j & Hj).
  apply lookup_take_Some in Hj as [Hj Hlt].
  assert (e.*1 !! j = Some k) as Hj1 by by rewrite list_lookup_fmap, Hj.
  assert (e.*1 !! pos = Some k) as Hpos1 by by rewrite list_lookup_fmap, Hpos.
  pose proof (NoDup_lookup _ _ _ _ Hnd Hj1 Hpos1). lia.
Qed.

Lemma dict_locs_disjoint (d : nat) (h : heap) (en : list (string * val))
    (Lsn : list (list loc)) (k k' : string) (nv nv' : val) (L L' : list loc) :
  Forall2 (λ v Lv, locs d h v = Some Lv) en.*2 Lsn → NoDup (mjoin Lsn) →
  dict_get k en = Some nv → dict_get k' en = Some nv' → k ≠ k' →
  locs d h nv = Some L → locs d h nv' = Some L' →
  ∀ l, l ∈ L → l ∉ L'.
Proof.
  intros HF Hnd (i & Hi)%dict_get_Some_lookup (j & Hj)%dict_get_Some_lookup Hk HL HL'.
  assert (en.*2 !! i = Some nv) as Hi2 by by rewrite list_lookup_fmap, Hi.
  assert (en.*2 !! j = Some nv') as Hj2 by by rewrite list_lookup_fmap, Hj.
  destruct (Forall2_lookup_l _ _ _ _ _ HF Hi2) as (X & HX & HXl).
  destruct (Forall2_lookup_l _ _ _ _ _ HF Hj2) as (Y & HY & HYl).
  simplify_eq. eapply NoDup_join_lookup; eauto. intros ->. simplify_eq.
Qed.

Section dict_loop_separated.
Variable d : nat.
Variable rec : val → val → bool → heap → result heap.
Hypothesis rec_sep : ∀ h o n u Lo Ln,
  (∀ l e, l ∈ Lo → h !! l = Some (ODict e) → NoDup e.*1) →
  locs d h o = Some Lo → locs d h n = Some Ln →
  NoDup Ln → (∀ l, l ∈ Lo → l ∉ Ln) →
  ∃ h', rec o n u h = Ok h' ∧ ∀ l, l ∉ touched d h o n → h' !! l = h !! l.

Variables (h : heap) (lo ln : loc) (eo en : list (string * val)).
Variables (Lso Lsn : list (list loc)).
Hypothesis Hlo : h !! lo = Some (ODict eo).
Hypothesis HLso : Forall2 (λ v Lv, locs d h v = Some Lv) eo.*2 Lso.
Hypothesis HLsn : Forall2 (λ v Lv, locs d h v = Some Lv) en.*2 Lsn.
Hypothesis Hnd : NoDup (ln :: mjoin Lsn).
Hypothesis Hdisj : ∀ l, l ∈ lo :: mjoin Lso → l ∉ ln :: mjoin Lsn.
Hypothesis Hwf : ∀ l e, l ∈ lo :: mjoin Lso → h !! l = Some (ODict e) → NoDup e.*1.

Lemma touched_entries_new (es : list (string * val)) (l : loc) :
  l ∈ touched_entries (touched d h) en es → l ∈ mjoin Lsn.
Proof.
  intros (k & ov & nv & _ & Hget & Hl)%elem_of_touched_entries.
  apply dict_get_elem_of_values in Hget.
  destruct (Forall2_locs_child _ _ _ _ _ HLsn Hget) as (Lnv & HLnv & _ & Hsub).
  apply Hsub. by eapply touched_subseteq.
Qed.


End dict_loop_separated.



Lemma heap_wf_lookup (h : heap) (l : loc) (e : list (string * val)) :
  heap_wf h → h !! l = Some (ODict e) → NoDup e.*1.
Proof. intros Hwf Hl. exact (map_Forall_lookup_1 _ _ _ _ Hwf Hl). Qed.


(** ** [old] is only read *)




(** ** Merging two dicts *)

Lemma dict_get_app (k : string) (e1 e2 : list (string * val)) :
  dict_get k (e1 ++ e2)
  = match dict_get k e1 with Some v => Some v | None => dict_get k e2 end.
Proof.
  destruct (dict_get k e1) as [v|] eqn:E.
  - by apply dict_get_app_l.
  - by apply dict_get_app_r.
Qed.


Lemma object_merge_disjoint_keys (f : nat) (h : heap) (lo ln : loc)
    (eo en : list (string * val)) (u : bool) :
  h !! lo = Some (ODict eo) → h !! ln = Some (ODict en) →
  NoDup eo.*1 → (∀ k, k ∈ eo.*1 → k ∉ en.*1) →
  object_merge (S f) (VRef lo) (VRef ln) u h = Ok (<[ln := ODict (en ++ eo)]> h).
Proof.
  intros Hlo Hln Hnd Hfresh. simpl. rewrite Hlo, Hln.
  destruct (decide (lo = ln)) as [->|Hne].
  - assert (eo = en) as -> by congruence.
    destruct en as [|[k v] en].
    + simpl. rewrite Hln. simpl. by rewrite insert_id.
    + exfalso. apply (Hfresh k); simpl; left.
  - by apply merge_dict_loop_fresh.
Qed.



(** ** Type mismatch: [new] wins *)



Lemma object_merge_keeps_bindings (f : nat) (h h' : heap) (ln : loc)
    (en : list (string * val)) (o : val) (u : bool) :
  h !! ln = Some (ODict en) →
  object_merge f o (VRef ln) u h = Ok h' →
  ∃ en', h' !! ln = Some (ODict en') ∧
         ∀ k v, dict_get k en = Some v → dict_get k en' = Some v.
Proof.
  intros Hln Hrun.
  pose proof (object_merge_grows _ _ _ _ _ _ Hrun) as Hle.
  destruct (heap_le_dict _ _ _ _ Hle Hln) as (ext & Hln').
  exists (en ++ ext). split; [done|]. intros k v. apply dict_get_app_l.
Qed.




(** ** [unique=True] on two lists *)

Lemma list_richcompare_loop_true_inv (eq : val → val → result bool) (xs ys : list val) :
  length xs = length ys →
  list_richcompare_loop eq xs ys = Ok true →
  Forall2 (λ x y, RichCompareBool eq x y = Ok true) xs ys.
Proof.
  revert ys. induction xs as [|x xs IH]; intros [|y ys] Hlen Hrun;
    simplify_eq/=; [constructor|].
  inv_bind Hrun. destruct r; [|done]. constructor; auto.
Qed.

Lemma py_eq_lists_true_inv (f : nat) (h : heap) (la lb : loc) (xs ys : list val) :
  h !! la = Some (OList xs) → h !! lb = Some (OList ys) →
  py_eq (S f) h (VRef la) (VRef lb) = Ok true →
  Forall2 (λ x y, py_rich f h x y = Ok true) xs ys.
Proof.
  intros Ha Hb. simpl. rewrite Ha, Hb. unfold list_richcompare.
  destruct (length xs =? length ys) eqn:Hlen; simpl; [|done].
  apply list_richcompare_loop_true_inv. by apply Nat.eqb_eq.
Qed.

Lemma py_rich_S (f : nat) (h : heap) (a b : val) (r : bool) :
  py_rich f h a b = Ok r → py_rich (S f) h a b = Ok r.
Proof. apply RichCompareBool_mono. intros ???. apply py_eq_S. Qed.

Lemma distinct_app (eq : val → val → result bool) (pre ys : list val) :
  (∀ p y, p ∈ pre → y ∈ ys → RichCompareBool eq y p = Ok false) →
  (∀ i j a b, i < j → pre !! i = Some a → pre !! j = Some b →
              RichCompareBool eq b a = Ok false) →
  (∀ i j a b, i < j → ys !! i = Some a → ys !! j = Some b →
              RichCompareBool eq b a = Ok false) →
  ∀ i j a b, i < j → (pre ++ ys) !! i = Some a → (pre ++ ys) !! j = Some b →
             RichCompareBool eq b a = Ok false.
Proof.
  intros Hcur Hpre Hys i j a b Hij Ha Hb.
  apply lookup_app_Some in Ha as [Ha|[Hi Ha]];
    apply lookup_app_Some in Hb as [Hb|[Hj Hb]].
  - by eapply Hpre.
  - apply Hcur; by eapply list_elem_of_lookup_2.
  - apply lookup_lt_Some in Hb. lia.
  - eapply (Hys (i - length pre) (j - length pre)); [lia|done|done].
Qed.

(** C4: when [A] and [B] are lists of finite depth and [B] occurs neither
    in [A] nor in itself, [object_merge(A, B, unique=True)] returns and
    leaves in [B] a block [pre] in front of the former items of [B], where
    [pre] is taken in order from [A]; no item of [pre] is equal to an item
    [B] had, so the merge duplicates none of them, and no two items of [pre]
    are equal: when no two items of [B] were equal, no two items of the
    result are.  Every item of [A] has an equal in the result.
    [["a","b"]] into [["b","c"]] gives [["a","b","c"]]. *)
Theorem C4_unique_no_duplicates
    (d : nat) (h : heap) (la lb : loc) (xs ys : list val) (Lo Ln : list loc) :
  h !! la = Some (OList xs) → h !! lb = Some (OList ys) →
  locs (S d) h (VRef la) = Some Lo → locs (S d) h (VRef lb) = Some (lb :: Ln) →
  lb ∉ Lo → lb ∉ Ln →
  (∃ pre,
     object_merge (S (S d)) (VRef la) (VRef lb) true h
       = Ok (<[lb := OList (pre ++ ys)]> h) ∧
     pre `sublist_of` xs ∧
     (∀ p y, p ∈ pre → y ∈ ys → py_rich (S d) h y p = Ok false) ∧
     (∀ i j a b, i < j → pre !! i = Some a → pre !! j = Some b →
                 py_rich (S d) h b a = Ok false) ∧
     ((∀ i j a b, i < j → ys !! i = Some a → ys !! j = Some b →
                  py_rich (S d) h b a = Ok false) →
      ∀ i j a b, i < j → (pre ++ ys) !! i = Some a → (pre ++ ys) !! j = Some b →
                 py_rich (S d) h b a = Ok false) ∧
     (∀ x, x ∈ xs → ∃ z, z ∈ pre ++ ys ∧
                         (py_rich (S d) h z x = Ok true ∨
                          py_rich (S d) h x z = Ok true))) ∧
  object_merge 2 (VRef 0) (VRef 1) true Examples.unique_lists
    = Ok (<[1 := OList [VStr "a"; VStr "b"; VStr "c"]]> Examples.unique_lists).
Proof.
  intros Hla Hlb Ho Hn Hfresh_o Hfresh_n. split; [|by vm_compute].
  destruct (py_eq_total _ _ _ _ _ _ Ho Hn) as [same Hsame].
  apply locs_ref in Ho as (oo & Lso & Hla' & HLso & ->).
  apply locs_ref in Hn as (on & Lsn & Hlb' & HLsn & [= ->]).
  rewrite Hla in Hla'. rewrite Hlb in Hlb'. simplify_eq/=.
  destruct same.
  - exists []. split_and!.
    + simpl. rewrite Hla, Hlb. simpl in Hsame. rewrite Hla, Hlb in Hsame.
      rewrite Hsame. simpl. by rewrite insert_id.
    + apply sublist_nil_l.
    + intros p y Hp. by apply elem_of_nil in Hp.
    + done.
    + done.
    + intros x (i & Hi)%list_elem_of_lookup.
      pose proof (py_eq_lists_true_inv _ _ _ _ _ _ Hla Hlb Hsame) as Hall.
      destruct (Forall2_lookup_l _ _ _ _ _ Hall Hi) as (y & Hy & Hxy).
      exists y. split; [by eapply list_elem_of_lookup_2|].
      right. by apply py_rich_S.
  - assert (Forall (λ v, ∃ L, locs d h v = Some L ∧ lb ∉ L) (reverse xs)) as Hxs.
    { apply Forall_forall. intros x Hx. rewrite elem_of_reverse in Hx.
      destruct (Forall2_locs_child _ _ _ _ _ HLso Hx) as (Lx & HLx & _ & Hsub).
      exists Lx. split; [done|]. intros Hin.
      apply Hfresh_o. right. by apply Hsub. }
    assert (Forall (λ v, ∃ L, locs d h v = Some L ∧ lb ∉ L) ys) as Hys.
    { apply Forall_forall. intros y Hy.
      destruct (Forall2_locs_child _ _ _ _ _ HLsn Hy) as (Ly & HLy & _ & Hsub).
      exists Ly. split; [done|]. intros Hin. by apply Hfresh_n, Hsub. }
    pose proof (merge_list_loop_unique (S d) d h h lb (reverse xs) ys
                  ltac:(done) Hlb Hxs Hys) as Hloop.
    unfold py_contains in Hloop. rewrite Forall_forall in Hxs, Hys.
    destruct (unique_prepend_total (py_eq (S d) h) (reverse xs) ys) as [zs Hzs].
    { intros x y Hx Hy.
      assert (∃ Lx, locs d h x = Some Lx) as [Lx HLx].
      { apply elem_of_app in Hx as [Hx|Hx];
          [destruct (Hxs x Hx) as (L & ? & _)|destruct (Hys x Hx) as (L & ? & _)];
          by exists L. }
      destruct (Hxs y Hy) as (Ly & HLy & _).
      destruct (py_eq_total _ _ _ _ _ _ HLx HLy) as [r Hr].
      exists r. by apply py_eq_S. }
    rewrite Hzs in Hloop. simpl in Hloop.
    apply unique_prepend_spec in Hzs as (pre & -> & Hsub & Hcur & Hpre & Hcov).
    exists pre. split_and!.
    + simpl. rewrite Hla, Hlb. simpl in Hsame. rewrite Hla, Hlb in Hsame.
      rewrite Hsame. simpl. exact Hloop.
    + by rewrite reverse_involutive in Hsub.
    + exact Hcur.
    + exact Hpre.
    + by apply distinct_app.
    + intros x Hx. destruct (Hcov x) as (z & Hz & Hzx).
      { by rewrite elem_of_reverse. }
      exists z. split; [done|by left].
Qed.

Lemma C4_unique_no_duplicates_witness :
  ∃ pre,
    object_merge 2 (VRef 0) (VRef 1) true Examples.unique_lists
      = Ok (<[1 := OList (pre ++ [VStr "b"; VStr "c"])]> Examples.unique_lists) ∧
    ∀ p y, p ∈ pre → y ∈ [VStr "b"; VStr "c"] →
           py_rich 1 Examples.unique_lists y p = Ok false.
Proof.
  destruct (C4_unique_no_duplicates 0 Examples.unique_lists 0 1
              [VStr "a"; VStr "b"] [VStr "b"; VStr "c"] [0] [])
    as [(pre & Hrun & _ & Hnew & _) _].
  - reflexivity.
  - reflexivity.
  - reflexivity.
  - reflexivity.
  - apply (bool_decide_unpack _). vm_compute. reflexivity.
  - apply (bool_decide_unpack _). vm_compute. reflexivity.
  - exists pre. split; [exact Hrun | exact Hnew].
Defined.

(** ** deduplicate *)

Lemma deduplicate_loop_app (f : nat) (h : heap) (items1 items2 acc : list val) :
  deduplicate_loop f h (items1 ++ items2) acc
  = deduplicate_loop f h items1 acc ≫= deduplicate_loop f h items2.
Proof.
  revert acc. induction items1 as [|item rest IH]; intros acc; simpl; [done|].
  destruct (py_contains f h acc item) as [seen| |]; simpl; [|done|done].
  apply IH.
Qed.

Lemma deduplicate_loop_spec (f : nat) (h : heap) (items acc zs : list val) :
  deduplicate_loop f h items acc = Ok zs →
  ∃ added, zs = acc ++ added ∧ added `sublist_of` items ∧
           (∀ a y, a ∈ added → y ∈ acc → py_rich f h y a = Ok false) ∧
           (∀ i j a b, i < j → added !! i = Some a → added !! j = Some b →
                       py_rich f h a b = Ok false) ∧
           (∀ x, x ∈ items → ∃ z, z ∈ zs ∧ py_rich f h z x = Ok true).
Proof.
  revert acc. induction items as [|item rest IH]; intros acc Hrun; simpl in Hrun.
  - injection Hrun as <-. exists []. rewrite app_nil_r. split_and!; try done.
    + intros a y Ha. by apply elem_of_nil in Ha.
    + intros x Hx. by apply elem_of_nil in Hx.
  - inv_bind Hrun. destruct r.
    + destruct (IH _ Hrun) as (added & -> & Hsub & Hacc & Hadd & Hcov).
      exists added. split_and!; try done.
      * by apply sublist_cons.
      * intros x [->|Hx]%elem_of_cons; [|by apply Hcov].
        apply list_contains_true in E as (y & Hy & Hr).
        exists y. split; [|done]. apply elem_of_app. by left.
    + destruct (IH _ Hrun) as (added & -> & Hsub & Hacc & Hadd & Hcov).
      apply list_contains_false in E. rewrite Forall_forall in E.
      exists (item :: added). split_and!.
      * by rewrite <- app_assoc.
      * by apply sublist_skip.
      * intros a y [->|Ha]%elem_of_cons Hy; [by apply E|].
        apply Hacc; [done|]. apply elem_of_app. by left.
      * intros [|i] [|j] a b Hij Ha Hb; simplify_eq/=; try lia.
        -- apply Hacc; [by eapply list_elem_of_lookup_2|].
           apply elem_of_app. right. left.
        -- apply (Hadd i j); [lia|done|done].
      * intros x [->|Hx]%elem_of_cons; [|by apply Hcov].
        exists item. split; [|apply RichCompareBool_refl].
        rewrite <- app_assoc. apply elem_of_app. right. left.
Qed.

Lemma deduplicate_loop_total (f : nat) (h : heap) (items acc : list val) :
  (∀ x y, x ∈ acc ++ items → y ∈ items → ∃ r, py_eq f h x y = Ok r) →
  ∃ zs, deduplicate_loop f h items acc = Ok zs.
Proof.
  revert acc. induction items as [|item rest IH]; intros acc Htot; simpl; eauto.
  destruct (list_contains_total (py_eq f h) acc item) as [r Hr].
  { intros x Hx. apply Htot; [|left]. apply elem_of_app. by left. }
  unfold py_contains. rewrite Hr. simpl. apply IH. intros x y Hx Hy.
  apply Htot; [|by right]. apply elem_of_app in Hx as [Hx|Hx].
  - destruct r; [apply elem_of_app; by left|].
    apply elem_of_app in Hx as [Hx|Hx%list_elem_of_singleton].
    + apply elem_of_app. by left.
    + subst. apply elem_of_app. right. left.
  - apply elem_of_app. right. by right.
Qed.

(** The items kept from the part of the list before a position are the
    start of the result, and the item at that position is equal to one of
    them or comes right after them. *)
Lemma deduplicate_loop_first (f : nat) (h : heap) (pre post zs : list val) (x : val) :
  deduplicate_loop f h (pre ++ x :: post) [] = Ok zs →
  ∃ zpre, deduplicate_loop f h pre [] = Ok zpre ∧ zpre `prefix_of` zs ∧
          ((∃ z, z ∈ zpre ∧ py_rich f h z x = Ok true) ∨
           (zpre ++ [x]) `prefix_of` zs).
Proof.
  rewrite deduplicate_loop_app. intros Hrun. inv_bind Hrun. rename r into zpre.
  exists zpre. split; [done|]. simpl in Hrun. inv_bind Hrun.
  apply deduplicate_loop_spec in Hrun as (added & -> & _).
  destruct r.
  - split; [by exists added|]. left. by apply list_contains_true in E0.
  - split; [exists ([x] ++ added); by rewrite app_assoc|].
    right. by exists added.
Qed.

(** C8: on a list of finite depth, [deduplicate] returns a fresh list object
    and leaves the store otherwise as it was, the input list included.  The
    result keeps items of the input in their order, so it is no longer than
    the input; no two of its items are equal; every item of the input is
    equal to one of the result; and an item is kept exactly at its first
    occurrence: what is kept from before a position starts the result, and
    the item at that position is equal to one of those or comes next.
    Equality is Python's [==] on items (with the identity shortcut of [in]).
    [deduplicate([3,1,2,1,3]) == [3,1,2]] and [deduplicate([]) == []]. *)
Theorem C8_deduplicate_first_occurrences
    (d : nat) (h : heap) (l : loc) (xs : list val) (L : list loc) :
  h !! l = Some (OList xs) → locs (S d) h (VRef l) = Some L →
  (∃ zs, let l' := fresh (dom h) in
     deduplicate d (VRef l) h = Ok (VRef l', <[l' := OList zs]> h) ∧
     h !! l' = None ∧
     (∀ l0 o, h !! l0 = Some o → <[l' := OList zs]> h !! l0 = Some o) ∧
     <[l' := OList zs]> h !! l = Some (OList xs) ∧
     zs `sublist_of` xs ∧ length zs ≤ length xs ∧
     (∀ i j a b, i < j → zs !! i = Some a → zs !! j = Some b →
                 py_rich d h a b = Ok false) ∧
     (∀ x, x ∈ xs → ∃ z, z ∈ zs ∧ py_rich d h z x = Ok true) ∧
     (∀ pre x post, xs = pre ++ x :: post →
        ∃ zpre, deduplicate_loop d h pre [] = Ok zpre ∧ zpre `prefix_of` zs ∧
                ((∃ z, z ∈ zpre ∧ py_rich d h z x = Ok true) ∨
                 (zpre ++ [x]) `prefix_of` zs))) ∧
  deduplicate 0 (VRef 0) Examples.dedup_lists
    = Ok (VRef 2, <[2 := OList [VInt 3; VInt 1; VInt 2]]> Examples.dedup_lists) ∧
  deduplicate 0 (VRef 1) Examples.dedup_lists
    = Ok (VRef 2, <[2 := OList []]> Examples.dedup_lists).
Proof.
  intros Hl HL. split_and!; [|by vm_compute|by vm_compute].
  apply locs_ref in HL as (o & Ls & Hl' & HLs & ->).
  rewrite Hl in Hl'. simplify_eq/=.
  destruct (deduplicate_loop_total d h xs []) as [zs Hzs].
  { intros x y Hx Hy. simpl in Hx.
    destruct (Forall2_locs_child _ _ _ _ _ HLs Hx) as (Lx & HLx & _).
    destruct (Forall2_locs_child _ _ _ _ _ HLs Hy) as (Ly & HLy & _).
    by eapply py_eq_total. }
  assert (h !! fresh (dom h) = None) as Hfresh.
  { apply not_elem_of_dom. apply is_fresh. }
  exists zs. simpl.
  pose proof (deduplicate_loop_spec _ _ _ _ _ Hzs)
    as (added & Hadded & Hsub & _ & Hdistinct & Hcov).
  simpl in Hadded. subst added.
  assert (∀ l0 o, h !! l0 = Some o →
                  <[fresh (dom h) := OList zs]> h !! l0 = Some o) as Hkeep.
  { intros l0 o Hl0. rewrite lookup_insert_ne; [done|]. intros <-. congruence. }
  split_and!; try done.
  - unfold deduplicate. simpl. rewrite Hl. simpl. by rewrite Hzs.
  - by apply Hkeep.
  - by apply sublist_length.
  - intros pre x post ->. by apply (deduplicate_loop_first d h pre post zs x).
Qed.

Lemma C8_deduplicate_first_occurrences_witness :
  ∃ zs, deduplicate 0 (VRef 0) Examples.dedup_lists
        = Ok (VRef (fresh (dom Examples.dedup_lists)),
              <[fresh (dom Examples.dedup_lists) := OList zs]> Examples.dedup_lists) ∧
        zs `sublist_of` [VInt 3; VInt 1; VInt 2; VInt 1; VInt 3].
Proof.
  destruct (C8_deduplicate_first_occurrences 0 Examples.dedup_lists 0
              [VInt 3; VInt 1; VInt 2; VInt 1; VInt 3] [0])
    as [(zs & Hrun & _ & _ & _ & Hsub & _) _].
  - reflexivity.
  - reflexivity.
  - exists zs. split; [exact Hrun | exact Hsub].
Defined.

(** ** The model's TypeError branches are dead

    [merge_list_loop] and [merge_dict_loop] read [old] and [new] back from
    the store on every round and raise TypeError should they no longer be a
    list or a dict.  That never happens: comparisons do not raise, and
    objects keep their kind. *)

Section oracle_no_raise.
Variable eq : val → val → result bool.
Hypothesis eq_no_raise : ∀ a b e, eq a b ≠ Raise e.

Lemma RichCompareBool_no_raise a b e : RichCompareBool eq a b ≠ Raise e.
Proof. unfold RichCompareBool. destruct (py_is a b); [done|apply eq_no_raise]. Qed.

Lemma list_richcompare_loop_no_raise xs ys e :
  list_richcompare_loop eq xs ys ≠ Raise e.
Proof.
  revert ys. induction xs as [|x xs IH]; intros [|y ys]; simpl; try done.
  pose proof (RichCompareBool_no_raise x y e).
  destruct (RichCompareBool eq x y) as [[]| |]; simpl; done.
Qed.

Lemma dict_equal_loop_no_raise ea eb e : dict_equal_loop eq ea eb ≠ Raise e.
Proof.
  induction ea as [|[k av] ea IH]; simpl; [done|].
  destruct (dict_get k eb) as [bv|]; [|done].
  pose proof (RichCompareBool_no_raise av bv e).
  destruct (RichCompareBool eq av bv) as [[]| |]; simpl; done.
Qed.

Lemma list_contains_no_raise items el e : list_contains eq items el ≠ Raise e.
Proof.
  induction items as [|x items IH]; simpl; [done|].
  pose proof (RichCompareBool_no_raise x el e).
  destruct (RichCompareBool eq x el) as [[]| |]; simpl; done.
Qed.
End oracle_no_raise.

Lemma py_eq_no_raise (f : nat) (h : heap) (a b : val) (e : exn) :
  py_eq f h a b ≠ Raise e.
Proof.
  revert a b e. induction f as [|f IH]; intros a b e.
  - by destruct a, b.
  - destruct a as [ | | | | |la], b as [ | | | | |lb]; try done. simpl.
    destruct (h !! la) as [[xs|ea]|], (h !! lb) as [[ys|eb]|]; try done.
    + unfold list_richcompare. destruct (negb _); [done|].
      apply list_richcompare_loop_no_raise. intros. apply IH.
    + unfold dict_equal. destruct (negb _); [done|].
      apply dict_equal_loop_no_raise. intros. apply IH.
Qed.

Lemma merge_list_loop_no_TypeError (f : nat) (ln : loc) (u : bool)
    (items ys : list val) (h : heap) :
  h !! ln = Some (OList ys) →
  merge_list_loop f ln u items h ≠ Raise TypeError.
Proof.
  revert ys h. induction items as [|item rest IH]; intros ys h Hln; simpl; [done|].
  rewrite Hln.
  assert (∀ e, py_contains f h ys item ≠ Raise e) as Hc.
  { intros e. apply list_contains_no_raise. intros. apply py_eq_no_raise. }
  assert (merge_list_loop f ln u rest (<[ln := OList (item :: ys)]> h)
          ≠ Raise TypeError) as Hins.
  { eapply IH. by rewrite lookup_insert_eq. }
  destruct u; simpl; [|done].
  destruct (py_contains f h ys item) as [[]|e|] eqn:E; simpl; try done.
  - by eapply IH.
  - by destruct (Hc e).
Qed.

Lemma merge_dict_loop_no_TypeError (rec : val → val → bool → heap → result heap)
    (lo ln : loc) (size0 pos todo : nat) (h : heap) (eo en : list (string * val)) :
  (∀ o n u h1, rec o n u h1 ≠ Raise TypeError) →
  (∀ o n u h1 h2, rec o n u h1 = Ok h2 → heap_le h1 h2) →
  h !! lo = Some (ODict eo) → h !! ln = Some (ODict en) →
  merge_dict_loop rec lo ln size0 pos todo h ≠ Raise TypeError.
Proof.
  intros Hrec Hgrow. revert pos h eo en.
  induction todo as [|todo IH]; intros pos h eo en Hlo Hln; simpl; rewrite Hlo.
  - by destruct (negb _).
  - destruct (negb _); [done|].
    destruct (eo !! pos) as [[key value]|]; [|done]. rewrite Hln.
    destruct (dict_get key en) as [nv|]; simpl.
    + pose proof (Hrec value nv false h) as Hnv.
      destruct (rec value nv false h) as [h1| |] eqn:E; simpl; try done.
      pose proof (Hgrow _ _ _ _ _ E) as Hle.
      destruct (heap_le_dict _ _ _ _ Hle Hlo) as (ext1 & Hlo1).
      destruct (heap_le_dict _ _ _ _ Hle Hln) as (ext2 & Hln1).
      by eapply IH.
    + assert (heap_le h (<[ln := ODict (en ++ [(key, value)])]> h)) as Hle.
      { eapply heap_le_insert; [done|]. simpl. by exists [(key, value)]. }
      destruct (heap_le_dict _ _ _ _ Hle Hlo) as (ext1 & Hlo1).
      destruct (heap_le_dict _ _ _ _ Hle Hln) as (ext2 & Hln1).
      by eapply IH.
Qed.

Lemma object_merge_no_TypeError (f : nat) (o n : val) (u : bool) (h : heap) :
  object_merge f o n u h ≠ Raise TypeError.
Proof.
  revert o n u h. induction f as [|f IH]; intros o n u h; [done|]. simpl.
  destruct o as [ | | | | |lo], n as [ | | | | |ln]; try done.
  destruct (h !! lo) as [[xs|eo]|] eqn:Hlo, (h !! ln) as [[ys|en]|] eqn:Hln;
    try done.
  - pose proof (py_eq_no_raise f h (VRef lo) (VRef ln)) as Hc.
    destruct (py_eq f h (VRef lo) (VRef ln)) as [[]|e|]; simpl; try done.
    + by eapply merge_list_loop_no_TypeError.
    + by destruct (Hc e).
  - eapply merge_dict_loop_no_TypeError; try done.
    intros. by eapply object_merge_grows.
Qed.

(** * Further properties of [object_merge] *)

(** X1: whatever the aliasing between [old] and [new], a call that returns
    has created or removed no object and changed the kind of none: a list
    has its former items at its end, below whatever was prepended, and a
    dict has its former entries first, before whatever keys were added. *)
Theorem X1_objects_only_grow
    (f : nat) (old new : val) (unique : bool) (h h' : heap) :
  object_merge f old new unique h = Ok h' →
  ∀ l, (h !! l = None → h' !! l = None) ∧
       (∀ xs, h !! l = Some (OList xs) → ∃ pre, h' !! l = Some (OList (pre ++ xs))) ∧
       (∀ e, h !! l = Some (ODict e) → ∃ ext, h' !! l = Some (ODict (e ++ ext))).
Proof.
  intros Hrun%object_merge_grows l. split_and!.
  - intros Hl. specialize (Hrun l). by rewrite Hl in Hrun.
  - intros xs Hl. by eapply heap_le_list.
  - intros e Hl. by eapply heap_le_dict.
Qed.

Lemma X1_objects_only_grow_witness :
  ∃ h', object_merge 3 (VRef 0) (VRef 3) false Examples.scenario = Ok h' ∧
        ∃ pre, h' !! 4 = Some (OList (pre ++ [VInt 3])).
Proof.
  exists (<[4 := OList [VInt 1; VInt 2; VInt 3]]>
            (<[5 := ODict [("y"%string, VInt 2); ("x"%string, VInt 1)]]>
               Examples.scenario)).
  assert (object_merge 3 (VRef 0) (VRef 3) false Examples.scenario
          = Ok (<[4 := OList [VInt 1; VInt 2; VInt 3]]>
                  (<[5 := ODict [("y"%string, VInt 2); ("x"%string, VInt 1)]]>
                     Examples.scenario))) as Hrun by (vm_compute; reflexivity).
  split; [exact Hrun|].
  destruct (X1_objects_only_grow _ _ _ _ _ _ Hrun 4) as (_ & Hlist & _).
  apply Hlist. reflexivity.
Defined.

(** ** Merging equal structures *)

Lemma list_richcompare_loop_refl (eq : val → val → result bool) (xs : list val) :
  list_richcompare_loop eq xs xs = Ok true.
Proof.
  induction xs as [|x xs IH]; simpl; [done|].
  by rewrite RichCompareBool_refl.
Qed.

Lemma py_eq_list_refl (f : nat) (h : heap) (l : loc) (xs : list val) :
  h !! l = Some (OList xs) → py_eq (S f) h (VRef l) (VRef l) = Ok true.
Proof.
  intros Hl. simpl. rewrite Hl. unfold list_richcompare.
  rewrite Nat.eqb_refl. simpl. apply list_richcompare_loop_refl.
Qed.

Lemma RichCompareBool_true (eq : val → val → result bool) (a b : val) :
  RichCompareBool eq a b = Ok true → a = b ∨ eq a b = Ok true.
Proof.
  unfold RichCompareBool, py_is. case_bool_decide; [by left|by right].
Qed.

Lemma dict_equal_loop_true_inv (eq : val → val → result bool)
    (ea eb : list (string * val)) (k : string) (av : val) :
  dict_equal_loop eq ea eb = Ok true → (k, av) ∈ ea →
  ∃ bv, dict_get k eb = Some bv ∧ RichCompareBool eq av bv = Ok true.
Proof.
  induction ea as [|[k' av'] ea IH]; simpl; intros Hrun Hin.
  - by apply elem_of_nil in Hin.
  - destruct (dict_get k' eb) as [bv|] eqn:Hget; [|done].
    inv_bind Hrun. destruct r; [|done].
    apply elem_of_cons in Hin as [[= -> ->]|Hin]; [by exists bv|by apply IH].
Qed.

(** The dict loop changes nothing when every key of [old] is in [new] and
    the call made for it changes nothing. *)
Lemma merge_dict_loop_noop (rec : val → val → bool → heap → result heap)
    (lo ln : loc) (eo en : list (string * val)) (pos todo : nat) (h : heap) :
  h !! lo = Some (ODict eo) → h !! ln = Some (ODict en) →
  (∀ i key value, pos ≤ i → eo !! i = Some (key, value) →
     ∃ nv, dict_get key en = Some nv ∧ rec value nv false h = Ok h) →
  merge_dict_loop rec lo ln (length eo) pos todo h = Ok h.
Proof.
  intros Hlo Hln. revert pos. induction todo as [|todo IH]; intros pos Hall; simpl.
  - by rewrite Hlo, Nat.eqb_refl.
  - rewrite Hlo, Nat.eqb_refl. simpl.
    destruct (eo !! pos) as [[key value]|] eqn:Hpos; [|done].
    rewrite Hln. destruct (Hall pos key value) as (nv & -> & ->); [lia|done|].
    simpl. apply IH. intros i key' value' Hi. apply Hall. lia.
Qed.

Lemma object_merge_equal (d : nat) (h : heap) :
  heap_wf h →
  ∀ old new u Lo,
    locs d h old = Some Lo →
    old = new ∨ py_eq d h old new = Ok true →
    object_merge (S d) old new u h = Ok h.
Proof.
  intros Hwf. induction d as [|d IH]; intros old new u Lo HLo Heq.
  - apply locs_0 in HLo as [_ Hold]. destruct old; try done. by destruct (Hold l).
  - destruct old as [ | | | | |lo]; try done.
    apply locs_ref in HLo as (oo & Lso & Hlo & HLso & ->).
    destruct Heq as [<-|Heq].
    + (* the same object *)
      destruct oo as [xs|eo].
      * eapply object_merge_equal_lists; [done|done|]. by eapply py_eq_list_refl.
      * simpl. rewrite Hlo. apply (merge_dict_loop_noop _ _ _ eo eo); [done|done|].
        intros i key value _ Hi. exists value. split.
        { eapply dict_get_lookup; [by eapply heap_wf_lookup|done]. }
        assert (value ∈ children (ODict eo)) as Hv.
        { simpl. apply list_elem_of_fmap. exists (key, value). split; [done|].
          by eapply list_elem_of_lookup_2. }
        destruct (Forall2_locs_child _ _ _ _ _ HLso Hv) as (Lv & HLv & _).
        eapply IH; [done|by left].
    + (* two objects that compare equal *)
      destruct new as [ | | | | |ln]; try done.
      destruct (h !! ln) as [on|] eqn:Hln; last first.
      { simpl. by rewrite Hlo, Hln; destruct oo. }
      destruct oo as [xs|eo], on as [ys|en].
      * by eapply object_merge_equal_lists.
      * simpl. by rewrite Hlo, Hln.
      * simpl. by rewrite Hlo, Hln.
      * simpl in Heq. rewrite Hlo, Hln in Heq. unfold dict_equal in Heq.
        destruct (negb _); [done|].
        simpl. rewrite Hlo, Hln.
        apply (merge_dict_loop_noop _ _ _ eo en); [done|done|].
        intros i key value _ Hi.
        destruct (dict_equal_loop_true_inv _ _ _ key value Heq) as (nv & Hget & Hr).
        { by eapply list_elem_of_lookup_2. }
        exists nv. split; [done|].
        assert (value ∈ children (ODict eo)) as Hv.
        { simpl. apply list_elem_of_fmap. exists (key, value). split; [done|].
          by eapply list_elem_of_lookup_2. }
        destruct (Forall2_locs_child _ _ _ _ _ HLso Hv) as (Lv & HLv & _).
        eapply IH; [done|]. by apply RichCompareBool_true.
Qed.

(** X2: the short-circuit on equal lists extends to whole structures.  When
    [old] is of finite depth and [old == new] is True, or [new] is [old]
    itself, [object_merge(old, new, unique)] returns and changes nothing in
    the store, dicts and their nested values included. *)
Theorem X2_equal_structures_unchanged
    (d : nat) (h : heap) (old new : val) (unique : bool) (Lo : list loc) :
  heap_wf h →
  locs d h old = Some Lo →
  old = new ∨ py_eq d h old new = Ok true →
  object_merge (S d) old new unique h = Ok h.
Proof. intros Hwf HLo Heq. by eapply object_merge_equal. Qed.

Lemma X2_equal_structures_unchanged_witness :
  object_merge 3 (VRef 6) (VRef 6) true Examples.scenario = Ok Examples.scenario.
Proof.
  apply (X2_equal_structures_unchanged 2 Examples.scenario (VRef 6) (VRef 6) true
           [6; 7; 8]).
  - apply (bool_decide_unpack _). vm_compute. reflexivity.
  - reflexivity.
  - left. reflexivity.
Defined.

(** ** [unique=True] when nothing is new *)

Lemma list_contains_true_intro (eq : val → val → result bool)
    (items : list val) (el z : val) :
  (∀ y, y ∈ items → ∃ r, eq y el = Ok r) →
  z ∈ items → RichCompareBool eq z el = Ok true →
  list_contains eq items el = Ok true.
Proof.
  intros Htot Hz Hzel. induction items as [|x items IH]; simpl.
  - by apply elem_of_nil in Hz.
  - destruct (RichCompareBool eq x el) as [[]| |] eqn:E; simpl; try done.
    + apply IH.
      * intros y Hy. apply Htot. by right.
      * apply elem_of_cons in Hz as [->|Hz]; [congruence|done].
    + unfold RichCompareBool in E. destruct (py_is x el); [done|].
      destruct (Htot x) as [r Hr]; [left|]. congruence.
    + unfold RichCompareBool in E. destruct (py_is x el); [done|].
      destruct (Htot x) as [r Hr]; [left|]. congruence.
Qed.

Lemma unique_prepend_all_contained (contains : list val → val → result bool)
    (items cur : list val) :
  (∀ x, x ∈ items → contains cur x = Ok true) →
  unique_prepend contains items cur = Ok cur.
Proof.
  induction items as [|item rest IH]; intros Hall; simpl; [done|].
  rewrite Hall by left. simpl. apply IH. intros x Hx. apply Hall. by right.
Qed.

Lemma object_merge_unique_covered
    (d : nat) (h : heap) (la lb : loc) (xs zs : list val) (Lo Ln : list loc) :
  h !! la = Some (OList xs) → h !! lb = Some (OList zs) →
  locs (S d) h (VRef la) = Some Lo → locs (S d) h (VRef lb) = Some (lb :: Ln) →
  lb ∉ Lo → lb ∉ Ln →
  (∀ x, x ∈ xs → ∃ z, z ∈ zs ∧ py_rich (S d) h z x = Ok true) →
  object_merge (S (S d)) (VRef la) (VRef lb) true h = Ok h.
Proof.
  intros Hla Hlb Ho Hn Hfresh_o Hfresh_n Hcov.
  destruct (py_eq_total _ _ _ _ _ _ Ho Hn) as [same Hsame].
  apply locs_ref in Ho as (oo & Lso & Hla' & HLso & ->).
  apply locs_ref in Hn as (on & Lsn & Hlb' & HLsn & [= ->]).
  rewrite Hla in Hla'. rewrite Hlb in Hlb'. simplify_eq/=.
  rewrite Hla, Hlb. rewrite Hla, Hlb in Hsame. rewrite Hsame. simpl.
  destruct same; [done|].
  assert (Forall (λ v, ∃ L, locs d h v = Some L ∧ lb ∉ L) (reverse xs)) as Hxs.
  { apply Forall_forall. intros x Hx. rewrite elem_of_reverse in Hx.
    destruct (Forall2_locs_child _ _ _ _ _ HLso Hx) as (Lx & HLx & _ & Hsub).
    exists Lx. split; [done|]. intros Hin. apply Hfresh_o. right. by apply Hsub. }
  assert (Forall (λ v, ∃ L, locs d h v = Some L ∧ lb ∉ L) zs) as Hzs.
  { apply Forall_forall. intros y Hy.
    destruct (Forall2_locs_child _ _ _ _ _ HLsn Hy) as (Ly & HLy & _ & Hsub).
    exists Ly. split; [done|]. intros Hin. by apply Hfresh_n, Hsub. }
  rewrite (merge_list_loop_unique (S d) d h h lb (reverse xs) zs) by done.
  rewrite Forall_forall in Hxs, Hzs.
  rewrite unique_prepend_all_contained.
  - simpl. by rewrite insert_id.
  - intros x Hx. destruct (Hcov x) as (z & Hz & Hzx).
    { by rewrite <- elem_of_reverse. }
    eapply list_contains_true_intro; [|exact Hz|exact Hzx].
    intros y Hy. destruct (Hzs y Hy) as (Ly & HLy & _).
    destruct (Hxs x Hx) as (Lx & HLx & _).
    destruct (py_eq_total _ _ _ _ _ _ HLy HLx) as [r Hr].
    exists r. by apply py_eq_S.
Qed.

(** X3: with [unique=True], when every item of the list [old] is equal to
    an item that the list [new] already has, the call returns and changes
    nothing: nothing is prepended.  ([old] and [new] are of finite depth and
    [new] occurs neither in [old] nor in itself.) *)
Theorem X3_unique_nothing_new
    (d : nat) (h : heap) (la lb : loc) (xs zs : list val) (Lo Ln : list loc) :
  h !! la = Some (OList xs) → h !! lb = Some (OList zs) →
  locs (S d) h (VRef la) = Some Lo → locs (S d) h (VRef lb) = Some (lb :: Ln) →
  lb ∉ Lo → lb ∉ Ln →
  (∀ x, x ∈ xs → ∃ z, z ∈ zs ∧ py_rich (S d) h z x = Ok true) →
  object_merge (S (S d)) (VRef la) (VRef lb) true h = Ok h.
Proof. apply object_merge_unique_covered. Qed.

Lemma X3_unique_nothing_new_witness :
  py_eq 1 Examples.covered_lists (VRef 0) (VRef 1) = Ok false ∧
  object_merge 2 (VRef 0) (VRef 1) true Examples.covered_lists
  = Ok Examples.covered_lists.
Proof.
  split; [reflexivity|].
  apply (X3_unique_nothing_new 0 Examples.covered_lists 0 1
           [VStr "c"; VStr "b"] [VStr "b"; VStr "c"] [0] []).
  - reflexivity.
  - reflexivity.
  - reflexivity.
  - reflexivity.
  - apply (bool_decide_unpack _). vm_compute. reflexivity.
  - apply (bool_decide_unpack _). vm_compute. reflexivity.
  - intros x Hx. apply elem_of_cons in Hx as [->|Hx].
    + exists (VStr "c"). split; [right; left|reflexivity].
    + apply list_elem_of_singleton in Hx as ->.
      exists (VStr "b"). split; [left|reflexivity].
Defined.

Lemma py_rich_frame (f d : nat) (h h1 : heap) (a b : val) (La Lb : list loc) :
  locs d h a = Some La → locs d h b = Some Lb →
  (∀ l, l ∈ La ++ Lb → h1 !! l = h !! l) →
  py_rich f h1 a b = py_rich f h a b.
Proof.
  intros Ha Hb Hsame. unfold py_rich, RichCompareBool.
  destruct (py_is a b); [done|]. by eapply py_eq_frame.
Qed.

Lemma object_merge_unique_twice
    (d : nat) (h : heap) (la lb : loc) (xs ys : list val) (Lo Ln : list loc) :
  h !! la = Some (OList xs) → h !! lb = Some (OList ys) →
  locs (S d) h (VRef la) = Some Lo → locs (S d) h (VRef lb) = Some (lb :: Ln) →
  lb ∉ Lo → lb ∉ Ln →
  ∃ h1, object_merge (S (S d)) (VRef la) (VRef lb) true h = Ok h1 ∧
        object_merge (S (S d)) (VRef la) (VRef lb) true h1 = Ok h1.
Proof.
  intros Hla Hlb Ho Hn Hfresh_o Hfresh_n.
  destruct (py_eq_total _ _ _ _ _ _ Ho Hn) as [same Hsame].
  pose proof Ho as Ho'.
  apply locs_ref in Ho as (oo & Lso & Hla' & HLso & ->).
  apply locs_ref in Hn as (on & Lsn & Hlb' & HLsn & [= ->]).
  rewrite Hla in Hla'. rewrite Hlb in Hlb'. simplify_eq/=.
  assert (la ≠ lb) as Hne by (intros ->; apply Hfresh_o; left).
  destruct same.
  { exists h. rewrite Hla, Hlb. rewrite Hla, Hlb in Hsame. by rewrite Hsame. }
  assert (∀ x, x ∈ xs → ∃ L, locs d h x = Some L ∧ lb ∉ L) as Hxs.
  { intros x Hx.
    destruct (Forall2_locs_child _ _ _ _ _ HLso Hx) as (Lx & HLx & _ & Hsub).
    exists Lx. split; [done|]. intros Hin. apply Hfresh_o. right. by apply Hsub. }
  assert (∀ y, y ∈ ys → ∃ L, locs d h y = Some L ∧ lb ∉ L) as Hys.
  { intros y Hy.
    destruct (Forall2_locs_child _ _ _ _ _ HLsn Hy) as (Ly & HLy & _ & Hsub).
    exists Ly. split; [done|]. intros Hin. by apply Hfresh_n, Hsub. }
  pose proof (merge_list_loop_unique (S d) d h h lb (reverse xs) ys
                ltac:(done) Hlb) as Hloop.
  unfold py_contains in Hloop.
  destruct (unique_prepend_total (py_eq (S d) h) (reverse xs) ys) as [zs Hzs].
  { intros x y Hx Hy.
    assert (∃ Lx, locs d h x = Some Lx) as [Lx HLx].
    { apply elem_of_app in Hx as [Hx|Hx].
      - rewrite elem_of_reverse in Hx. destruct (Hxs x Hx) as (L & ? & _). by exists L.
      - destruct (Hys x Hx) as (L & ? & _). by exists L. }
    rewrite elem_of_reverse in Hy. destruct (Hxs y Hy) as (Ly & HLy & _).
    destruct (py_eq_total _ _ _ _ _ _ HLx HLy) as [r Hr].
    exists r. by apply py_eq_S. }
  rewrite Hzs in Hloop. simpl in Hloop.
  apply unique_prepend_spec in Hzs as (pre & -> & Hsub & _ & _ & Hcov).
  rewrite reverse_involutive in Hsub.
  exists (<[lb := OList (pre ++ ys)]> h). split.
  { rewrite Hla, Hlb. rewrite Hla, Hlb in Hsame. rewrite Hsame. simpl.
    apply Hloop.
    - apply Forall_forall. intros x Hx. rewrite elem_of_reverse in Hx. by apply Hxs.
    - apply Forall_forall. intros y Hy. by apply Hys. }
  (* the second call *)
  assert (∀ z, z ∈ pre ++ ys → ∃ L, locs d h z = Some L ∧ lb ∉ L) as Hzs.
  { intros z [Hz|Hz]%elem_of_app; [|by apply Hys].
    apply Hxs. by eapply elem_of_sublist. }
  assert (∀ v L, locs d h v = Some L → lb ∉ L →
                 locs d (<[lb := OList (pre ++ ys)]> h) v = Some L) as Hframe.
  { intros v L HL Hv. eapply locs_frame; [done|].
    intros l Hl. rewrite lookup_insert_ne; [done|]. by intros <-. }
  destruct (mapM (locs d (<[lb := OList (pre ++ ys)]> h)) (pre ++ ys))
    as [Ls'|] eqn:HLs'; last first.
  { apply mapM_None in HLs'. apply Exists_exists in HLs' as (z & Hz & Hnone).
    destruct (Hzs z Hz) as (L & HL & Hfresh). by rewrite (Hframe z L) in Hnone. }
  apply mapM_Some in HLs'.
  eapply (object_merge_unique_covered d _ la lb xs (pre ++ ys)
            (la :: mjoin Lso) (mjoin Ls')).
  - by rewrite lookup_insert_ne.
  - by rewrite lookup_insert_eq.
  - eapply locs_frame; [exact Ho'|].
    intros l Hl. rewrite lookup_insert_ne; [done|]. by intros <-.
  - apply locs_ref. eexists _, Ls'. split_and!; [by rewrite lookup_insert_eq|done|done].
  - done.
  - intros (L & Hl & HL)%list_elem_of_join.
    apply list_elem_of_lookup in HL as (i & Hi).
    destruct (Forall2_lookup_r _ _ _ _ _ HLs' Hi) as (z & Hz & HzL).
    destruct (Hzs z) as (L0 & HL0 & Hfresh); [by eapply list_elem_of_lookup_2|].
    rewrite (Hframe z L0) in HzL by done. by simplify_eq.
  - intros x Hx. destruct (Hcov x) as (z & Hz & Hzx).
    { by rewrite elem_of_reverse. }
    exists z. split; [done|].
    destruct (Hzs z Hz) as (Lz & HLz & Hfz). destruct (Hxs x Hx) as (Lx & HLx & Hfx).
    unfold py_rich. rewrite <- Hzx.
    apply (py_rich_frame (S d) d h _ z x Lz Lx); [done|done|].
    intros l Hl. rewrite lookup_insert_ne; [done|].
    intros <-. by apply elem_of_app in Hl as [].
Qed.

(** X4: on two lists, [object_merge] with [unique=True] is idempotent: a
    second call with the same arguments, made on the store the first call
    left, changes nothing.  (Lists of finite depth, [new] occurring neither
    in [old] nor in itself.) *)
Theorem X4_unique_merge_idempotent
    (d : nat) (h : heap) (la lb : loc) (xs ys : list val) (Lo Ln : list loc) :
  h !! la = Some (OList xs) → h !! lb = Some (OList ys) →
  locs (S d) h (VRef la) = Some Lo → locs (S d) h (VRef lb) = Some (lb :: Ln) →
  lb ∉ Lo → lb ∉ Ln →
  ∃ h1, object_merge (S (S d)) (VRef la) (VRef lb) true h = Ok h1 ∧
        object_merge (S (S d)) (VRef la) (VRef lb) true h1 = Ok h1.
Proof. apply object_merge_unique_twice. Qed.

Lemma X4_unique_merge_idempotent_witness :
  ∃ h1, object_merge 2 (VRef 0) (VRef 1) true Examples.unique_lists = Ok h1 ∧
        object_merge 2 (VRef 0) (VRef 1) true h1 = Ok h1.
Proof.
  apply (X4_unique_merge_idempotent 0 Examples.unique_lists 0 1
           [VStr "a"; VStr "b"] [VStr "b"; VStr "c"] [0] []).
  - reflexivity.
  - reflexivity.
  - reflexivity.
  - reflexivity.
  - apply (bool_decide_unpack _). vm_compute. reflexivity.
  - apply (bool_decide_unpack _). vm_compute. reflexivity.
Defined.

(** ** The recursion below a shared key *)




(** ** A dict that changes under its own iteration *)

(** X6: when the value [new] binds to the first key [k] of the dict [old]
    is [old] itself, and [old[k]] is a dict with at least one key, none of
    them a key of [old], the call raises RuntimeError: the call made for [k]
    adds the keys of [old[k]] to [old], and the loop over [old.items()] finds
    that [old] has changed size. *)
Theorem X6_old_changed_during_iteration
    (f : nat) (h : heap) (lo li ln : loc) (k : string) (u : bool)
    (rest ei en : list (string * val)) :
  h !! lo = Some (ODict ((k, VRef li) :: rest)) →
  h !! li = Some (ODict ei) → h !! ln = Some (ODict en) →
  dict_get k en = Some (VRef lo) →
  ei ≠ [] → NoDup ei.*1 →
  (∀ k', k' ∈ ei.*1 → k' ∉ ((k, VRef li) :: rest).*1) →
  object_merge (S (S f)) (VRef lo) (VRef ln) u h = Raise RuntimeError.
Proof.
  intros Hlo Hli Hln Hget Hne Hnd Hfresh.
  assert (object_merge (S f) (VRef li) (VRef lo) false h
          = Ok (<[lo := ODict (((k, VRef li) :: rest) ++ ei)]> h)) as Hrec
    by by apply object_merge_disjoint_keys.
  change (object_merge (S (S f)) (VRef lo) (VRef ln) u h) with
    (match h !! lo, h !! ln with
     | Some (OList xs), Some (OList ys) =>
         same ← py_eq (S f) h (VRef lo) (VRef ln);
         if same : bool then Ok h
         else merge_list_loop (S f) ln u (reverse xs) h
     | Some (ODict eo), Some (ODict en) =>
         merge_dict_loop (object_merge (S f)) lo ln (length eo) 0 (length eo) h
     | _, _ => Ok h
     end).
  rewrite Hlo, Hln.
  change (length ((k, VRef li) :: rest)) with (S (length rest)).
  cbn [merge_dict_loop]. rewrite Hlo, Hln. cbn [length lookup list_lookup].
  rewrite Nat.eqb_refl. cbn [negb]. rewrite Hget, Hrec. cbn [mbind result_bind].
  assert (negb (length (((k, VRef li) :: rest) ++ ei) =? S (length rest)) = true)
    as Hsize.
  { apply negb_true_iff, Nat.eqb_neq. rewrite length_app. simpl.
    destruct ei; [done|simpl; lia]. }
  destruct (length rest); cbn [merge_dict_loop];
    by rewrite lookup_insert_eq, Hsize.
Qed.

Lemma X6_old_changed_during_iteration_witness :
  object_merge 2 (VRef 0) (VRef 2) false Examples.new_holds_old = Raise RuntimeError.
Proof.
  apply (X6_old_changed_during_iteration 0 Examples.new_holds_old 0 1 2 "a" false
           [] [("z"%string, VInt 1)] [("a"%string, VRef 0)]).
  - reflexivity.
  - reflexivity.
  - reflexivity.
  - reflexivity.
  - discriminate.
  - apply (bool_decide_unpack _). vm_compute. reflexivity.
  - apply Forall_forall. apply (bool_decide_unpack _). vm_compute. reflexivity.
Defined.

(** ** The whole effect of a merge on separate trees *)

Lemma lookup_apply_writes (W : list (loc * obj)) (h : heap) (l : loc) :
  apply_writes W h !! l
  = match written l W with Some o => Some o | None => h !! l end.
Proof.
  induction W as [|[l' o] W IH]; simpl; [done|].
  case_bool_decide as Hl; subst.
  - by rewrite lookup_insert_eq.
  - by rewrite lookup_insert_ne.
Qed.

Lemma written_app (l : loc) (W1 W2 : list (loc * obj)) :
  written l (W1 ++ W2)
  = match written l W1 with Some o => Some o | None => written l W2 end.
Proof.
  induction W1 as [|[l' o] W1 IH]; simpl; [done|]. by case_bool_decide.
Qed.

Lemma written_None (l : loc) (W : list (loc * obj)) :
  l ∉ W.*1 → written l W = None.
Proof.
  induction W as [|[l' o] W IH]; simpl; [done|].
  rewrite not_elem_of_cons. intros [Hne Hl].
  rewrite bool_decide_eq_false_2 by done. auto.
Qed.

Lemma written_Some_dom (l : loc) (o : obj) (W : list (loc * obj)) :
  written l W = Some o → l ∈ W.*1.
Proof.
  intros H. destruct (decide (l ∈ W.*1)) as [|Hn]; [done|].
  by rewrite written_None in H.
Qed.

Lemma elem_of_merge_writes_entries (rec : val → val → list (loc * obj))
    (en eo : list (string * val)) (p : loc * obj) :
  p ∈ merge_writes_entries rec en eo ↔
  ∃ k ov nv, (k, ov) ∈ eo ∧ dict_get k en = Some nv ∧ p ∈ rec ov nv.
Proof.
  unfold merge_writes_entries. rewrite list_elem_of_join. split.
  - intros (T & Hl & HT).
    apply list_elem_of_fmap in HT as ([k ov] & -> & Hkv). simpl in Hl.
    destruct (dict_get k en) as [nv|] eqn:Hget; [|by apply elem_of_nil in Hl].
    by exists k, ov, nv.
  - intros (k & ov & nv & Hkv & Hget & Hl). exists (rec ov nv). split; [done|].
    apply list_elem_of_fmap. exists (k, ov). simpl. by rewrite Hget.
Qed.

Lemma merge_writes_entries_snoc (rec : val → val → list (loc * obj))
    (en es : list (string * val)) (k : string) (ov : val) :
  merge_writes_entries rec en (es ++ [(k, ov)])
  = merge_writes_entries rec en es
    ++ match dict_get k en with Some nv => rec ov nv | None => [] end.
Proof.
  unfold merge_writes_entries. rewrite fmap_app, join_app. simpl.
  by rewrite app_nil_r.
Qed.

(** Only objects listed by [touched] are written to. *)
Lemma merge_writes_touched (d : nat) (h : heap) (o n : val) (l : loc) :
  l ∈ (merge_writes d h o n).*1 → l ∈ touched d h o n.
Proof.
  revert o n. induction d as [|d IH]; intros o n; cbn [merge_writes touched].
  - by intros ?%elem_of_nil.
  - destruct o as [ | | | | |lo], n as [ | | | | |ln]; try by intros ?%elem_of_nil.
    destruct (h !! lo) as [[xs|eo]|], (h !! ln) as [[ys|en]|];
      try by intros ?%elem_of_nil.
    + destruct (py_eq (S d) h (VRef lo) (VRef ln)) as [[]| |];
        try by intros ?%elem_of_nil.
      intros Hl. exact Hl.
    + simpl. intros [->|Hl]%elem_of_cons; [left|right].
      apply list_elem_of_fmap in Hl as ([l' o'] & -> & Hin).
      apply elem_of_merge_writes_entries in Hin as (k & ov & nv & Hkv & Hget & Hin).
      apply elem_of_touched_entries. exists k, ov, nv. split_and!; try done.
      apply IH. apply list_elem_of_fmap. by exists (l', o').
Qed.

Lemma merge_writes_frame (d : nat) (h h1 : heap) (o n : val) (Lo Ln : list loc) :
  locs d h o = Some Lo → locs d h n = Some Ln →
  (∀ l, l ∈ Lo ++ Ln → h1 !! l = h !! l) →
  merge_writes d h1 o n = merge_writes d h o n.
Proof.
  revert o n Lo Ln. induction d as [|d IH]; intros o n Lo Ln Ho Hn Hsame; [done|].
  destruct o as [ | | | | |lo], n as [ | | | | |ln]; try done.
  assert (py_eq (S d) h1 (VRef lo) (VRef ln) = py_eq (S d) h (VRef lo) (VRef ln))
    as Heq by by eapply py_eq_frame.
  apply locs_ref in Ho as (oo & Lso & Hlo & HLso & ->).
  apply locs_ref in Hn as (on & Lsn & Hln & HLsn & ->).
  cbn [merge_writes]. rewrite Heq. rewrite !Hsame, Hlo, Hln;
    [|apply elem_of_app; right; left|apply elem_of_app; left; left].
  destruct oo as [xs|eo], on as [ys|en]; try done.
  f_equal. unfold merge_writes_entries. f_equal.
  apply list_fmap_ext. intros i [k ov] Hi. simpl.
  destruct (dict_get k en) as [nv|] eqn:Hget; [|done].
  apply dict_get_elem_of_values in Hget.
  assert (ov ∈ children (ODict eo)) as Hov.
  { simpl. apply list_elem_of_fmap. exists (k, ov). split; [done|].
    by eapply list_elem_of_lookup_2. }
  destruct (Forall2_locs_child _ _ _ _ _ HLso Hov) as (Lov & HLov & _ & Hsubo).
  destruct (Forall2_locs_child _ _ _ _ _ HLsn Hget) as (Lnv & HLnv & _ & Hsubn).
  eapply IH; [done|done|]. intros l [Hl|Hl]%elem_of_app; apply Hsame.
  - apply elem_of_app. left. right. by apply Hsubo.
  - apply elem_of_app. right. right. by apply Hsubn.
Qed.

Lemma merge_writes_entries_touched (d : nat) (h : heap)
    (en es : list (string * val)) (l : loc) :
  l ∈ (merge_writes_entries (merge_writes d h) en es).*1 →
  l ∈ touched_entries (touched d h) en es.
Proof.
  intros ([l' o'] & -> & Hin)%list_elem_of_fmap.
  apply elem_of_merge_writes_entries in Hin as (k & ov & nv & Hkv & Hget & Hin).
  apply elem_of_touched_entries. exists k, ov, nv. split_and!; try done.
  apply merge_writes_touched. apply list_elem_of_fmap. by exists (l', o').
Qed.

Lemma filter_absent_snoc (en es : list (string * val)) (k : string) (v : val) :
  filter (λ kv, dict_get kv.1 en = None) (es ++ [(k, v)])
  = filter (λ kv, dict_get kv.1 en = None) es
    ++ match dict_get k en with Some _ => [] | None => [(k, v)] end.
Proof.
  rewrite filter_app. f_equal.
  destruct (dict_get k en) as [nv|] eqn:Hget.
  - rewrite filter_cons_False; [done|]. simpl. by rewrite Hget.
  - rewrite filter_cons_True; [done|]. done.
Qed.

Section dict_loop_writes.
Variable d : nat.
Variable rec : val → val → bool → heap → result heap.
Hypothesis rec_spec : ∀ h o n Lo Ln,
  (∀ l e, l ∈ Lo → h !! l = Some (ODict e) → NoDup e.*1) →
  locs d h o = Some Lo → locs d h n = Some Ln →
  NoDup Ln → (∀ l, l ∈ Lo → l ∉ Ln) →
  rec o n false h = Ok (apply_writes (merge_writes d h o n) h).

Variables (h : heap) (lo ln : loc) (eo en : list (string * val)).
Variables (Lso Lsn : list (list loc)).
Hypothesis Hlo : h !! lo = Some (ODict eo).
Hypothesis HLso : Forall2 (λ v Lv, locs d h v = Some Lv) eo.*2 Lso.
Hypothesis HLsn : Forall2 (λ v Lv, locs d h v = Some Lv) en.*2 Lsn.
Hypothesis Hnd : NoDup (ln :: mjoin Lsn).
Hypothesis Hdisj : ∀ l, l ∈ lo :: mjoin Lso → l ∉ ln :: mjoin Lsn.
Hypothesis Hwf : ∀ l e, l ∈ lo :: mjoin Lso → h !! l = Some (ODict e) → NoDup e.*1.

Lemma merge_dict_loop_writes (todo : nat) :
  ∀ pos hc,
    pos + todo = length eo →
    (∀ l, hc !! l
          = match written l
                    ((ln, ODict (en ++ filter (λ kv, dict_get kv.1 en = None)
                                         (take pos eo)))
                     :: merge_writes_entries (merge_writes d h) en (take pos eo))
            with Some o => Some o | None => h !! l end) →
    ∃ h', merge_dict_loop rec lo ln (length eo) pos todo hc = Ok h' ∧
          ∀ l, h' !! l
               = match written l
                         ((ln, ODict (en ++ filter (λ kv, dict_get kv.1 en = None) eo))
                          :: merge_writes_entries (merge_writes d h) en eo)
                 with Some o => Some o | None => h !! l end.
Proof.
  assert (ln ∉ mjoin Lsn) as Hln_fresh by by apply NoDup_cons in Hnd as [? _].
  assert (NoDup (mjoin Lsn)) as Hnd' by by apply NoDup_cons in Hnd as [_ ?].
  assert (∀ l, l ∈ lo :: mjoin Lso → l ≠ ln ∧ l ∉ mjoin Lsn) as Hold.
  { intros l Hl. specialize (Hdisj l Hl).
    apply not_elem_of_cons in Hdisj as [? ?]. done. }
  assert (NoDup eo.*1) as Hkeys by (eapply Hwf; [left|done]).
  assert (∀ pos (hc : heap),
    (∀ l, hc !! l
          = match written l
                    ((ln, ODict (en ++ filter (λ kv, dict_get kv.1 en = None)
                                         (take pos eo)))
                     :: merge_writes_entries (merge_writes d h) en (take pos eo))
            with Some o => Some o | None => h !! l end) →
    hc !! ln = Some (ODict (en ++ filter (λ kv, dict_get kv.1 en = None)
                                    (take pos eo))) ∧
    ∀ l, l ≠ ln → l ∉ touched_entries (touched d h) en (take pos eo) →
         hc !! l = h !! l) as Hinv.
  { intros pos hc Hhc. split.
    - rewrite Hhc. simpl. by rewrite bool_decide_eq_true_2.
    - intros l Hl Hnot. rewrite Hhc. simpl.
      rewrite bool_decide_eq_false_2 by done.
      rewrite written_None; [done|].
      intros Hin. by apply Hnot, merge_writes_entries_touched. }
  induction todo as [|todo IH]; intros pos hc Hpos Hhc;
    destruct (Hinv pos hc Hhc) as [Hlnc Hsame].
  - assert (hc !! lo = Some (ODict eo)) as Hloc.
    { rewrite Hsame; [done|by apply Hold; left|].
      intros Hin%(touched_entries_new d h en Lsn HLsn). by eapply Hold; [left|]. }
    simpl. rewrite Hloc, Nat.eqb_refl. simpl. exists hc. split; [done|].
    rewrite take_ge in Hhc by lia. done.
  - assert (hc !! lo = Some (ODict eo)) as Hloc.
    { rewrite Hsame; [done|by apply Hold; left|].
      intros Hin%(touched_entries_new d h en Lsn HLsn). by eapply Hold; [left|]. }
    simpl. rewrite Hloc, Nat.eqb_refl. simpl.
    destruct (eo !! pos) as [[key value]|] eqn:Hpos_eo; last first.
    { apply lookup_ge_None in Hpos_eo. lia. }
    rewrite Hlnc.
    assert (take (S pos) eo = take pos eo ++ [(key, value)]) as Htake
      by by apply take_S_r.
    assert (dict_get key (filter (λ kv, dict_get kv.1 en = None) (take pos eo))
            = None) as Hkey_ext.
    { apply dict_get_None. intros ([k' v'] & Hk & Hin)%list_elem_of_fmap.
      simpl in Hk. subst k'. apply list_elem_of_filter in Hin as [_ Hin].
      eapply NoDup_keys_take; [exact Hkeys|exact Hpos_eo|].
      apply list_elem_of_fmap. by exists (key, v'). }
    rewrite dict_get_app, Hkey_ext.
    destruct (dict_get key en) as [nv|] eqn:Hget.
    + assert (value ∈ eo.*2) as Hvalue.
      { apply list_elem_of_fmap. exists (key, value). split; [done|].
        by eapply list_elem_of_lookup_2. }
      destruct (Forall2_locs_child _ _ _ _ _ HLso Hvalue)
        as (Lov & HLov & _ & Hsubo).
      pose proof (dict_get_elem_of_values _ _ _ Hget) as Hnv.
      destruct (Forall2_locs_child _ _ _ _ _ HLsn Hnv)
        as (Lnv & HLnv & _ & Hsubn).
      assert (∀ l, l ∈ Lnv → l ≠ ln ∧
                l ∉ touched_entries (touched d h) en (take pos eo)) as Hnew.
      { intros l Hl. split.
        - intros ->. by apply Hln_fresh, Hsubn.
        - intros (k' & ov' & nv' & Hin & Hget' & Hl')%elem_of_touched_entries.
          pose proof (dict_get_elem_of_values _ _ _ Hget') as Hnv'.
          destruct (Forall2_locs_child _ _ _ _ _ HLsn Hnv')
            as (Lnv' & HLnv' & _ & _).
          assert (k' ≠ key) as Hne.
          { intros ->. eapply NoDup_keys_take; [exact Hkeys|exact Hpos_eo|].
            apply list_elem_of_fmap. by exists (key, ov'). }
          eapply (dict_locs_disjoint d h en Lsn k' key nv' nv); eauto.
          by eapply touched_subseteq. }
      assert (∀ l, l ∈ Lov → hc !! l = h !! l) as Hframe_o.
      { intros l Hl. destruct (Hold l) as [? ?]; [right; by apply Hsubo|].
        apply Hsame; [done|].
        by intros Hin%(touched_entries_new d h en Lsn HLsn). }
      assert (∀ l, l ∈ Lnv → hc !! l = h !! l) as Hframe_n.
      { intros l Hl. destruct (Hnew l Hl). by apply Hsame. }
      rewrite (rec_spec hc value nv Lov Lnv).
      * rewrite (merge_writes_frame d h hc value nv Lov Lnv); try done;
          last by (intros l [?|?]%elem_of_app; auto).
        simpl. apply (IH (S pos)); [lia|].
        intros l. rewrite lookup_apply_writes, Htake, filter_absent_snoc, Hget,
          app_nil_r, merge_writes_entries_snoc, Hget.
        cbn [written]. case_bool_decide as Hl.
        -- subst l. rewrite written_None; [done|].
           intros Hin%merge_writes_touched.
           apply Hln_fresh, Hsubn. by eapply touched_subseteq.
        -- rewrite written_app.
           destruct (written l (merge_writes d h value nv)) as [o|] eqn:Hw.
           ++ rewrite written_None; [done|].
              intros Hin%merge_writes_entries_touched.
              apply written_Some_dom, merge_writes_touched in Hw.
              eapply Hnew; [|exact Hin]. by eapply touched_subseteq.
           ++ rewrite Hhc. cbn [written].
              rewrite bool_decide_eq_false_2 by done.
              by destruct (written l (merge_writes_entries (merge_writes d h) en
                                        (take pos eo))).
      * intros l e Hl. rewrite Hframe_o by done.
        apply Hwf. right. by apply Hsubo.
      * by eapply locs_frame.
      * by eapply locs_frame.
      * eapply sublist_NoDup; [exact Hnd'|]. clear -Hnv HLsn HLnv.
        apply list_elem_of_lookup in Hnv as (i & Hi).
        destruct (Forall2_lookup_l _ _ _ _ _ HLsn Hi) as (X & HX & HXl).
        simplify_eq. clear -HX. revert i HX.
        induction Lsn as [|Z Ls IHs]; intros [|i] HX; simplify_eq/=.
        -- by apply sublist_inserts_r.
        -- apply sublist_inserts_l. by eapply IHs.
      * intros l Hl Hl'. destruct (Hold l) as [_ Hout]; [right; by apply Hsubo|].
        by apply Hout, Hsubn.
    + simpl. apply (IH (S pos)); [lia|].
      intros l. rewrite Htake, filter_absent_snoc, Hget,
        merge_writes_entries_snoc, Hget, app_nil_r, app_assoc.
      cbn [written]. case_bool_decide as Hl.
      * subst l. by rewrite lookup_insert_eq.
      * rewrite lookup_insert_ne by done. rewrite Hhc. cbn [written].
        by rewrite bool_decide_eq_false_2 by done.
Qed.
End dict_loop_writes.

Lemma object_merge_unfold (f : nat) (lo ln : loc) (u : bool) (h : heap) :
  object_merge (S f) (VRef lo) (VRef ln) u h
  = match h !! lo, h !! ln with
    | Some (OList xs), Some (OList ys) =>
        same ← py_eq f h (VRef lo) (VRef ln);
        if same : bool then Ok h
        else merge_list_loop f ln u (reverse xs) h
    | Some (ODict eo), Some (ODict en) =>
        merge_dict_loop (object_merge f) lo ln (length eo) 0 (length eo) h
    | _, _ => Ok h
    end.
Proof. reflexivity. Qed.

Lemma object_merge_writes (d : nat) :
  ∀ h o n Lo Ln,
    (∀ l e, l ∈ Lo → h !! l = Some (ODict e) → NoDup e.*1) →
    locs d h o = Some Lo → locs d h n = Some Ln →
    NoDup Ln → (∀ l, l ∈ Lo → l ∉ Ln) →
    object_merge (S d) o n false h = Ok (apply_writes (merge_writes d h o n) h).
Proof.
  induction d as [|d IH]; intros h o n Lo Ln Hwf Ho Hn Hnd Hdisj.
  - apply locs_0 in Ho as [_ Ho]. destruct o; simpl; try done. by destruct (Ho l).
  - destruct o as [ | | | | |lo]; try done.
    destruct n as [ | | | | |ln]; try done.
    pose proof Ho as Ho'. pose proof Hn as Hn'.
    apply locs_ref in Ho as (oo & Lso & Hlo & HLso & ->).
    apply locs_ref in Hn as (on & Lsn & Hln & HLsn & ->).
    destruct oo as [xs|eo], on as [ys|en].
    + destruct (py_eq_total _ _ _ _ _ _ Ho' Hn') as [same Hsame].
      cbn [merge_writes]. rewrite Hlo, Hln, Hsame.
      rewrite object_merge_unfold, Hlo, Hln, Hsame. simpl. destruct same; [done|].
      rewrite (merge_list_loop_all _ _ _ ys) by done.
      by rewrite reverse_involutive.
    + cbn [merge_writes]. simpl. by rewrite Hlo, Hln.
    + cbn [merge_writes]. simpl. by rewrite Hlo, Hln.
    + destruct (merge_dict_loop_writes d (object_merge (S d)) IH
                  h lo ln eo en Lso Lsn Hlo HLso HLsn Hnd Hdisj Hwf
                  (length eo) 0 h) as (h' & Hrun & Hh').
      * done.
      * intros l. simpl. case_bool_decide as Hl; [|done].
        subst l. rewrite take_0. by rewrite filter_nil, app_nil_r.
      * rewrite object_merge_unfold, Hlo, Hln, Hrun. f_equal.
        cbn [merge_writes]. rewrite Hlo, Hln. apply map_eq. intros l.
        by rewrite lookup_apply_writes, Hh'.
Qed.

(** X7: on separate trees the whole effect of [object_merge(old, new)]
    is given by [merge_writes], computed on the store before the call.  With
    [old] and [new] of finite depth sharing no object, [new] a tree, the call
    returns, and afterwards a dict of [new] merged with a dict of [old]
    holds its own entries, as they were, followed by the entries of [old]
    whose key it lacked, in [old]'s order and bound to [old]'s very values;
    a list of [new] merged with an unequal list of [old] holds the items of
    [old] followed by its own; this holds at every depth below shared keys;
    and every other object is as it was. *)
Theorem X7_merge_is_structural
    (d : nat) (h : heap) (old new : val) (Lo Ln : list loc) :
  heap_wf h →
  locs d h old = Some Lo → locs d h new = Some Ln →
  NoDup Ln → Forall (λ l, l ∉ Ln) Lo →
  ∃ h', object_merge (S d) old new false h = Ok h' ∧
        h' = apply_writes (merge_writes d h old new) h ∧
        ∀ l, h' !! l = match written l (merge_writes d h old new) with
                       | Some o => Some o
                       | None => h !! l
                       end.
Proof.
  intros Hwf Ho Hn Hnd Hdisj. rewrite Forall_forall in Hdisj.
  eexists. split_and!; [|done|apply lookup_apply_writes].
  eapply object_merge_writes; try done.
  intros l e _. by apply heap_wf_lookup.
Qed.

Lemma X7_merge_is_structural_witness :
  ∃ h', object_merge 3 (VRef 0) (VRef 3) false Examples.scenario = Ok h' ∧
        h' = apply_writes
               [(3, ODict [("a"%string, VRef 4); ("b"%string, VRef 5)]);
                (4, OList [VInt 1; VInt 2; VInt 3]);
                (5, ODict [("y"%string, VInt 2); ("x"%string, VInt 1)])]
               Examples.scenario.
Proof.
  destruct (X7_merge_is_structural 2 Examples.scenario (VRef 0) (VRef 3)
              [0; 1; 2] [3; 4; 5])
    as (h' & Hrun & Hh' & _).
  - apply (bool_decide_unpack _). vm_compute. reflexivity.
  - reflexivity.
  - reflexivity.
  - apply (bool_decide_unpack _). vm_compute. reflexivity.
  - apply (bool_decide_unpack _). vm_compute. reflexivity.
  - exists h'. split; [exact Hrun | exact Hh'].
Defined.



Lemma written_entries_shared (d : nat) (h : heap) (en eo : list (string * val))
    (Lsn : list (list loc)) (k : string) (ov nv : val) (Lnv : list loc) (l : loc) :
  Forall2 (λ v Lv, locs d h v = Some Lv) en.*2 Lsn → NoDup (mjoin Lsn) →
  NoDup eo.*1 →
  (k, ov) ∈ eo → dict_get k en = Some nv → locs d h nv = Some Lnv → l ∈ Lnv →
  written l (merge_writes_entries (merge_writes d h) en eo)
  = written l (merge_writes d h ov nv).
Proof.
  intros HLsn Hnd Hkeys Hin Hget HLnv Hl.
  assert (∀ k' ov' nv', k' ≠ k → dict_get k' en = Some nv' →
            written l (merge_writes d h ov' nv') = None) as Hother.
  { intros k' ov' nv' Hne Hget'. apply written_None.
    intros Hdom%merge_writes_touched.
    pose proof (dict_get_elem_of_values _ _ _ Hget') as Hnv'.
    destruct (Forall2_locs_child _ _ _ _ _ HLsn Hnv') as (Lnv' & HLnv' & _ & _).
    eapply (dict_locs_disjoint d h en Lsn k' k nv' nv); eauto.
    by eapply touched_subseteq. }
  induction eo as [|[k' ov'] eo IH]; [by apply elem_of_nil in Hin|].
  simpl in Hkeys. apply NoDup_cons in Hkeys as [Hk' Hkeys].
  change (merge_writes_entries (merge_writes d h) en ((k', ov') :: eo)) with
    (match dict_get k' en with
     | Some nv' => merge_writes d h ov' nv'
     | None => []
     end ++ merge_writes_entries (merge_writes d h) en eo).
  rewrite written_app.
  apply elem_of_cons in Hin as [[= <- <-]|Hin].
  - rewrite Hget. destruct (written l (merge_writes d h ov nv)) as [o|]; [done|].
    apply written_None.
    intros (k' & ov' & nv' & Hkv & Hget' & Hdom)%merge_writes_entries_touched
             %elem_of_touched_entries.
    assert (k' ≠ k) as Hne.
    { intros ->. apply Hk'. apply list_elem_of_fmap. by exists (k, ov'). }
    pose proof (dict_get_elem_of_values _ _ _ Hget') as Hnv'.
    destruct (Forall2_locs_child _ _ _ _ _ HLsn Hnv') as (Lnv' & HLnv' & _ & _).
    eapply (dict_locs_disjoint d h en Lsn k' k nv' nv); eauto.
    by eapply touched_subseteq.
  - assert (k' ≠ k) as Hne.
    { intros ->. apply Hk'. apply list_elem_of_fmap. by exists (k, ov). }
    destruct (dict_get k' en) as [nv'|] eqn:Hget'.
    + rewrite (Hother k' ov' nv') by done. by apply IH.
    + simpl. by apply IH.
Qed.

Lemma NoDup_join_elem {A} (Ls : list (list A)) (X : list A) :
  NoDup (mjoin Ls) → X ∈ Ls → NoDup X.
Proof.
  induction Ls as [|Z Ls IH]; intros Hnd Hin; [by apply elem_of_nil in Hin|].
  simpl in Hnd. apply NoDup_app in Hnd as (HZ & _ & Hnd).
  apply elem_of_cons in Hin as [->|Hin]; auto.
Qed.

(** X9: below a shared key the merge is the merge of the two values.  On
    separate trees, when the dicts [old] and [new] both have the key [k],
    the objects of [new[k]] are, after [object_merge(old, new)], exactly as
    [object_merge(old[k], new[k])] alone, called on the initial store, leaves
    them: the calls made for the other keys have no part in them. *)
Theorem X9_shared_key_merged_alone
    (d : nat) (h : heap) (lo ln : loc) (eo en : list (string * val))
    (k : string) (ov nv : val) (Lo Ln : list loc) :
  heap_wf h →
  h !! lo = Some (ODict eo) → h !! ln = Some (ODict en) →
  dict_get k eo = Some ov → dict_get k en = Some nv →
  locs (S d) h (VRef lo) = Some Lo → locs (S d) h (VRef ln) = Some Ln →
  NoDup Ln → Forall (λ l, l ∉ Ln) Lo →
  ∃ h' hk Lnv,
    object_merge (S (S d)) (VRef lo) (VRef ln) false h = Ok h' ∧
    object_merge (S d) ov nv false h = Ok hk ∧
    locs d h nv = Some Lnv ∧
    ∀ l, l ∈ Lnv → h' !! l = hk !! l.
Proof.
  intros Hwf Hlo Hln Hgeto Hgetn Ho Hn Hnd Hdisj. rewrite Forall_forall in Hdisj.
  assert (object_merge (S (S d)) (VRef lo) (VRef ln) false h
          = Ok (apply_writes (merge_writes (S d) h (VRef lo) (VRef ln)) h)) as Hrun.
  { eapply object_merge_writes; try done. intros l e _. by apply heap_wf_lookup. }
  apply locs_ref in Ho as (oo & Lso & Hlo' & HLso & ->).
  apply locs_ref in Hn as (on & Lsn & Hln' & HLsn & ->).
  rewrite Hlo in Hlo'. rewrite Hln in Hln'. simplify_eq/=.
  apply NoDup_cons in Hnd as [Hfresh Hnd].
  pose proof (dict_get_elem_of_values _ _ _ Hgeto) as Hov.
  pose proof (dict_get_elem_of_values _ _ _ Hgetn) as Hnv.
  destruct (Forall2_locs_child _ _ _ _ _ HLso Hov) as (Lov & HLov & _ & Hsubo).
  destruct (Forall2_locs_child _ _ _ _ _ HLsn Hnv) as (Lnv & HLnv & HLnv_in & Hsubn).
  assert (object_merge (S d) ov nv false h
          = Ok (apply_writes (merge_writes d h ov nv) h)) as Hrunk.
  { eapply (object_merge_writes d h ov nv Lov Lnv); try done.
    - intros l e _. by apply heap_wf_lookup.
    - by eapply NoDup_join_elem.
    - intros l Hl Hl'. apply (Hdisj l); [right; by apply Hsubo|].
      right. by apply Hsubn. }
  eexists _, _, Lnv. split_and!; [exact Hrun|exact Hrunk|done|].
  intros l Hl. rewrite !lookup_apply_writes. cbn [merge_writes].
  rewrite Hlo, Hln. cbn [written].
  rewrite bool_decide_eq_false_2; last first.
  { intros ->. by apply Hfresh, Hsubn. }
  rewrite (written_entries_shared d h en eo Lsn k ov nv Lnv l); try done.
  - by eapply heap_wf_lookup.
  - by apply dict_get_elem_of.
Qed.

Lemma X9_shared_key_merged_alone_witness :
  ∃ h' hk, object_merge 3 (VRef 0) (VRef 3) false Examples.scenario = Ok h' ∧
           object_merge 2 (VRef 1) (VRef 4) false Examples.scenario = Ok hk ∧
           h' !! 4 = hk !! 4.
Proof.
  destruct (X9_shared_key_merged_alone 1 Examples.scenario 0 3
              [("a"%string, VRef 1); ("b"%string, VRef 2)]
              [("a"%string, VRef 4); ("b"%string, VRef 5)]
              "a" (VRef 1) (VRef 4) [0; 1; 2] [3; 4; 5])
    as (h' & hk & Lnv & Hrun & Hrunk & HLnv & Hsame).
  - apply (bool_decide_unpack _). vm_compute. reflexivity.
  - reflexivity.
  - reflexivity.
  - reflexivity.
  - reflexivity.
  - reflexivity.
  - reflexivity.
  - apply (bool_decide_unpack _). vm_compute. reflexivity.
  - apply (bool_decide_unpack _). vm_compute. reflexivity.
  - exists h', hk. split_and!; [exact Hrun|exact Hrunk|].
    apply Hsame. injection HLnv as <-. left.
Defined.

(** * Further properties of [deduplicate] *)

Lemma deduplicate_loop_distinct (f : nat) (h : heap) (items acc : list val) :
  (∀ y x, y ∈ acc → x ∈ items → py_rich f h y x = Ok false) →
  (∀ i j a b, i < j → items !! i = Some a → items !! j = Some b →
              py_rich f h a b = Ok false) →
  deduplicate_loop f h items acc = Ok (acc ++ items).
Proof.
  revert acc. induction items as [|item rest IH]; intros acc Hacc Hitems; simpl.
  - by rewrite app_nil_r.
  - assert (py_contains f h acc item = Ok false) as ->.
    { apply list_contains_false, Forall_forall. intros y Hy. apply Hacc; [done|left]. }
    simpl. rewrite IH.
    + by rewrite <- app_assoc.
    + intros y x [Hy|Hy%list_elem_of_singleton]%elem_of_app Hx.
      * apply Hacc; [done|by right].
      * subst y. apply list_elem_of_lookup in Hx as (j & Hj).
        apply (Hitems 0 (S j)); [lia|done|done].
    + intros i j a b Hij Ha Hb. apply (Hitems (S i) (S j)); [lia|done|done].
Qed.

Lemma deduplicate_distinct_list
    (f : nat) (h : heap) (l : loc) (xs : list val) :
  h !! l = Some (OList xs) →
  (∀ i j a b, i < j → xs !! i = Some a → xs !! j = Some b →
              py_rich f h a b = Ok false) →
  deduplicate f (VRef l) h
  = Ok (VRef (fresh (dom h)), <[fresh (dom h) := OList xs]> h).
Proof.
  intros Hl Hdistinct. unfold deduplicate. simpl. rewrite Hl. simpl.
  rewrite (deduplicate_loop_distinct f h xs []); [done| |done].
  intros y x Hy. by apply elem_of_nil in Hy.
Qed.

(** X10: a list without duplicates is a fixed point of [deduplicate].  When
    no item of the list is equal to a later one, the result is a fresh list
    with the same items in the same order. *)
Theorem X10_deduplicate_distinct_list
    (f : nat) (h : heap) (l : loc) (xs : list val) :
  h !! l = Some (OList xs) →
  (∀ i j a b, i < j → xs !! i = Some a → xs !! j = Some b →
              py_rich f h a b = Ok false) →
  deduplicate f (VRef l) h
  = Ok (VRef (fresh (dom h)), <[fresh (dom h) := OList xs]> h).
Proof. apply deduplicate_distinct_list. Qed.

Lemma X10_deduplicate_distinct_list_witness :
  deduplicate 0 (VRef 0) Examples.distinct_items
  = Ok (VRef (fresh (dom Examples.distinct_items)),
        <[fresh (dom Examples.distinct_items) := OList [VInt 3; VInt 1; VInt 2]]>
          Examples.distinct_items).
Proof.
  apply (X10_deduplicate_distinct_list 0 Examples.distinct_items 0
           [VInt 3; VInt 1; VInt 2]).
  - reflexivity.
  - intros [|[|[|i]]] [|[|[|j]]] a b Hij Ha Hb; simplify_eq/=; try lia; reflexivity.
Defined.

Lemma locs_allocated (d : nat) (h : heap) (v : val) (L : list loc) (l : loc) :
  locs d h v = Some L → l ∈ L → is_Some (h !! l).
Proof.
  revert v L. induction d as [|d IH]; intros v L HL Hl.
  - apply locs_0 in HL as [-> _]. by apply elem_of_nil in Hl.
  - destruct v as [ | | | | |l0]; simpl in HL; simplify_eq;
      try by apply elem_of_nil in Hl.
    apply locs_ref in HL as (o & Ls & Hl0 & HLs & ->).
    apply elem_of_cons in Hl as [->|Hl]; [by eexists|].
    apply list_elem_of_join in Hl as (X & Hl & HX).
    apply list_elem_of_lookup in HX as (i & Hi).
    destruct (Forall2_lookup_r _ _ _ _ _ HLs Hi) as (c & Hc & HcX).
    by eapply IH.
Qed.

(** X11: [deduplicate] is idempotent.  On a list of finite depth, applying
    [deduplicate] to the list it returned gives a list with the same items
    in the same order. *)
Theorem X11_deduplicate_idempotent
    (d : nat) (h : heap) (l : loc) (xs : list val) (L : list loc) :
  h !! l = Some (OList xs) → locs (S d) h (VRef l) = Some L →
  ∃ zs l1 h1 l2,
    deduplicate d (VRef l) h = Ok (VRef l1, h1) ∧
    h1 !! l1 = Some (OList zs) ∧
    deduplicate d (VRef l1) h1 = Ok (VRef l2, <[l2 := OList zs]> h1) ∧
    h1 !! l2 = None.
Proof.
  intros Hl HL.
  apply locs_ref in HL as (o & Ls & Hl' & HLs & ->).
  rewrite Hl in Hl'. simplify_eq/=.
  destruct (deduplicate_loop_total d h xs []) as [zs Hzs].
  { intros x y Hx Hy. simpl in Hx.
    destruct (Forall2_locs_child _ _ _ _ _ HLs Hx) as (Lx & HLx & _).
    destruct (Forall2_locs_child _ _ _ _ _ HLs Hy) as (Ly & HLy & _).
    by eapply py_eq_total. }
  pose proof (deduplicate_loop_spec _ _ _ _ _ Hzs)
    as (added & Hadded & Hsub & _ & Hdistinct & _).
  simpl in Hadded. subst added.
  assert (h !! fresh (dom h) = None) as Hfresh.
  { apply not_elem_of_dom. apply is_fresh. }
  exists zs, (fresh (dom h)), (<[fresh (dom h) := OList zs]> h),
    (fresh (dom (<[fresh (dom h) := OList zs]> h))).
  split_and!.
  - unfold deduplicate. simpl. rewrite Hl. simpl. by rewrite Hzs.
  - by rewrite lookup_insert_eq.
  - apply deduplicate_distinct_list; [by rewrite lookup_insert_eq|].
    intros i j a b Hij Ha Hb.
    assert (a ∈ xs ∧ b ∈ xs) as [Hax Hbx].
    { split; eapply elem_of_sublist; try exact Hsub;
        by eapply list_elem_of_lookup_2. }
    destruct (Forall2_locs_child _ _ _ _ _ HLs Hax) as (La & HLa & _).
    destruct (Forall2_locs_child _ _ _ _ _ HLs Hbx) as (Lb & HLb & _).
    rewrite (py_rich_frame d d h _ a b La Lb); [by eapply Hdistinct|done|done|].
    intros l0 Hl0. rewrite lookup_insert_ne; [done|]. intros <-.
    assert (is_Some (h !! fresh (dom h))) as [? ?]; [|congruence].
    apply elem_of_app in Hl0 as [Hin|Hin].
    + exact (locs_allocated d h a La _ HLa Hin).
    + exact (locs_allocated d h b Lb _ HLb Hin).
  - apply not_elem_of_dom. apply is_fresh.
Qed.

Lemma X11_deduplicate_idempotent_witness :
  ∃ zs l1 h1 l2,
    deduplicate 0 (VRef 0) Examples.dedup_lists = Ok (VRef l1, h1) ∧
    h1 !! l1 = Some (OList zs) ∧
    deduplicate 0 (VRef l1) h1 = Ok (VRef l2, <[l2 := OList zs]> h1).
Proof.
  destruct (X11_deduplicate_idempotent 0 Examples.dedup_lists 0
              [VInt 3; VInt 1; VInt 2; VInt 1; VInt 3] [0])
    as (zs & l1 & h1 & l2 & H1 & H2 & H3 & _).
  - reflexivity.
  - reflexivity.
  - exists zs, l1, h1, l2. split_and!; [exact H1|exact H2|exact H3].
Defined.

Lemma py_rich_strings (f : nat) (h : heap) (a b : string) :
  a ≠ b → py_rich f h (VStr a) (VStr b) = Ok false.
Proof.
  intros Hne. unfold py_rich, RichCompareBool, py_is.
  rewrite bool_decide_eq_false_2 by congruence.
  destruct f; simpl; by rewrite bool_decide_eq_false_2.
Qed.

(** X12: given a dict, [deduplicate] iterates over its keys, which are
    pairwise distinct: the result is a fresh list of all the keys, in the
    dict's order. *)
Theorem X12_deduplicate_dict_keys
    (f : nat) (h : heap) (l : loc) (e : list (string * val)) :
  heap_wf h → h !! l = Some (ODict e) →
  deduplicate f (VRef l) h
  = Ok (VRef (fresh (dom h)), <[fresh (dom h) := OList (VStr <$> e.*1)]> h).
Proof.
  intros Hwf Hl. unfold deduplicate. simpl. rewrite Hl. simpl.
  rewrite (deduplicate_loop_distinct f h (VStr <$> e.*1) []); [done| |].
  - intros y x Hy. by apply elem_of_nil in Hy.
  - intros i j a b Hij Ha Hb.
    apply list_lookup_fmap_Some in Ha as (ka & -> & Ha).
    apply list_lookup_fmap_Some in Hb as (kb & -> & Hb).
    apply py_rich_strings. intros ->.
    pose proof (NoDup_lookup _ _ _ _ (heap_wf_lookup _ _ _ Hwf Hl) Ha Hb). lia.
Qed.

Lemma X12_deduplicate_dict_keys_witness :
  deduplicate 0 (VRef 1) Examples.distinct_items
  = Ok (VRef (fresh (dom Examples.distinct_items)),
        <[fresh (dom Examples.distinct_items)
            := OList (VStr <$> [("b"%string, VInt 1); ("a"%string, VInt 2)].*1)]>
          Examples.distinct_items).
Proof.
  apply (X12_deduplicate_dict_keys 0 Examples.distinct_items 1).
  - apply (bool_decide_unpack _). vm_compute. reflexivity.
  - reflexivity.
Defined.

(** * The sentinel in lists *)

Lemma py_rich_Missing_r (f : nat) (h : heap) (x : val) (i : nat) :
  py_rich f h x (VMissing i) = Ok (Missing.isinstance x).
Proof.
  unfold py_rich, RichCompareBool, py_is. case_bool_decide as Hx.
  - by subst x.
  - apply py_eq_Missing_r.
Qed.

Lemma py_contains_Missing (f : nat) (h : heap) (items : list val) (i : nat) :
  py_contains f h items (VMissing i) = Ok (existsb Missing.isinstance items).
Proof.
  unfold py_contains. induction items as [|x items IH]; simpl; [done|].
  fold (py_rich f h x (VMissing i)). rewrite py_rich_Missing_r. simpl.
  by destruct (Missing.isinstance x).
Qed.

(** X13: a Missing instance is [in] a list exactly when the list holds an
    instance of Missing, whichever one, and finding out needs no descent
    into the items.  So [deduplicate] keeps at most one instance of Missing:
    no two items of its result are both instances. *)
Theorem X13_missing_membership
    (f : nat) (h : heap) (items xs zs : list val) (i : nat) :
  py_contains f h items (VMissing i) = Ok (existsb Missing.isinstance items) ∧
  (deduplicate_loop f h xs [] = Ok zs →
   ∀ j1 j2 a b, j1 < j2 → zs !! j1 = Some a → zs !! j2 = Some b →
                Missing.isinstance a && Missing.isinstance b = false).
Proof.
  split; [apply py_contains_Missing|].
  intros Hrun j1 j2 a b Hj Ha Hb.
  apply deduplicate_loop_spec in Hrun as (added & -> & _ & _ & Hdistinct & _).
  simpl in *. specialize (Hdistinct j1 j2 a b Hj Ha Hb).
  destruct b; try by rewrite andb_false_r.
  rewrite py_rich_Missing_r in Hdistinct. injection Hdistinct as ->. done.
Qed.

Lemma X13_missing_membership_witness :
  py_contains 0 ∅ [VInt 1; VMissing 1] (VMissing 0) = Ok true ∧
  deduplicate_loop 0 ∅ [VMissing 0; VInt 1; VMissing 1] [] = Ok [VMissing 0; VInt 1].
Proof.
  split.
  - exact (proj1 (X13_missing_membership 0 ∅ [VInt 1; VMissing 1] [] [] 0)).
  - reflexivity.
Defined.

(** * DynaconfDict *)

Lemma dict_get_setitem (k k' : string) (v : val) (e : list (string * val)) :
  dict_get k' (dict_setitem k v e)
  = if bool_decide (k = k') then Some v else dict_get k' e.
Proof.
  induction e as [|[k0 v0] e IH]; simpl.
  - by repeat case_bool_decide.
  - destruct (decide (k0 = k)) as [->|Hne].
    + rewrite bool_decide_eq_true_2 by done. simpl. by case_bool_decide.
    + rewrite (bool_decide_eq_false_2 (k0 = k)) by done. simpl. rewrite IH.
      repeat case_bool_decide; congruence.
Qed.

Lemma dict_setitem_keys (k : string) (v : val) (e : list (string * val)) :
  (dict_setitem k v e).*1
  = if bool_decide (k ∈ e.*1) then e.*1 else e.*1 ++ [k].
Proof.
  induction e as [|[k0 v0] e IH].
  - case_bool_decide as Hk; [|done]. by apply elem_of_nil in Hk.
  - cbn [dict_setitem]. rewrite !fmap_cons. cbn [fst].
    destruct (decide (k0 = k)) as [->|Hne].
    + rewrite (bool_decide_eq_true_2 (k = k)) by done. rewrite fmap_cons.
      rewrite bool_decide_eq_true_2; [done|left].
    + rewrite (bool_decide_eq_false_2 (k0 = k)) by done. rewrite fmap_cons, IH.
      cbn [fst]. destruct (decide (k ∈ e.*1)) as [Hin|Hnin].
      * rewrite (bool_decide_eq_true_2 (k ∈ e.*1)) by done.
        rewrite bool_decide_eq_true_2; [done|by right].
      * rewrite (bool_decide_eq_false_2 (k ∈ e.*1)) by done.
        rewrite bool_decide_eq_false_2; [done|].
        rewrite not_elem_of_cons. split; [congruence|done].
Qed.

Lemma dict_setitem_NoDup (k : string) (v : val) (e : list (string * val)) :
  NoDup e.*1 → NoDup (dict_setitem k v e).*1.
Proof.
  intros Hnd. rewrite dict_setitem_keys. case_bool_decide as Hk; [done|].
  apply NoDup_app. split_and!; [done| |apply NoDup_singleton].
  intros x Hx ->%list_elem_of_singleton. done.
Qed.

Lemma dict_setitem_same (k : string) (v : val) (e : list (string * val)) :
  dict_get k e = Some v → dict_setitem k v e = e.
Proof.
  induction e as [|[k0 v0] e IH]; simpl; [done|].
  case_bool_decide as Hk.
  - by intros [= ->].
  - intros Hget. by rewrite IH.
Qed.

(** X14: after [d.set(key, value)] on a DynaconfDict, [d.get(key, default)]
    is [value] and every other key gives what it gave before; the keys are
    the former keys, in their order, with [key] added last if it was new;
    they stay pairwise distinct; and no other object changes. *)
Theorem X14_set_then_get
    (h : heap) (self : loc) (key : string) (value : val)
    (entries : list (string * val)) :
  h !! self = Some (ODict entries) →
  ∃ h1 entries1,
    DynaconfDict.set self key value h = Ok h1 ∧
    h1 !! self = Some (ODict entries1) ∧
    (∀ default, DynaconfDict.get self key default h1 = Ok value) ∧
    (∀ k' default, k' ≠ key →
       DynaconfDict.get self k' default h1 = DynaconfDict.get self k' default h) ∧
    entries1.*1 = (if bool_decide (key ∈ entries.*1) then entries.*1
                   else entries.*1 ++ [key]) ∧
    (NoDup entries.*1 → NoDup entries1.*1) ∧
    (∀ l, l ≠ self → h1 !! l = h !! l).
Proof.
  intros Hself. unfold DynaconfDict.set, DynaconfDict.get. rewrite Hself.
  eexists _, _. split_and!; [done|by rewrite lookup_insert_eq| | | | |].
  - intros default. rewrite lookup_insert_eq, dict_get_setitem.
    by rewrite bool_decide_eq_true_2.
  - intros k' default Hne. rewrite lookup_insert_eq, dict_get_setitem.
    by rewrite bool_decide_eq_false_2.
  - apply dict_setitem_keys.
  - apply dict_setitem_NoDup.
  - intros l Hl. by rewrite lookup_insert_ne.
Qed.

Lemma X14_set_then_get_witness :
  ∃ h1, DynaconfDict.set 0 "HOST" (VStr "x") Examples.settings = Ok h1 ∧
        DynaconfDict.get 0 "HOST" VNone h1 = Ok (VStr "x").
Proof.
  destruct (X14_set_then_get Examples.settings 0 "HOST" (VStr "x")
              [("DEBUG"%string, VNone)])
    as (h1 & e1 & Hset & _ & Hget & _).
  - reflexivity.
  - exists h1. split; [exact Hset | exact (Hget VNone)].
Defined.

(** X15: [d.exists(key)] is False when [key] is absent and when it is
    bound to the object [missing] itself, and True when it is bound to
    anything else, None and any other instance of Missing included.  So
    after [d.set(key, value)], [d.exists(key)] is True unless [value] is
    [missing]. *)
Theorem X15_exists_tells_missing_apart
    (h : heap) (self : loc) (key : string) (value : val)
    (entries : list (string * val)) :
  h !! self = Some (ODict entries) →
  DynaconfDict.exists_ self key h
  = Ok (match dict_get key entries with
        | Some v => negb (bool_decide (v = missing))
        | None => false
        end) ∧
  (∀ h1, DynaconfDict.set self key value h = Ok h1 →
         DynaconfDict.exists_ self key h1 = Ok (negb (bool_decide (value = missing)))) ∧
  (∀ h1, DynaconfDict.set self key VNone h = Ok h1 →
         DynaconfDict.exists_ self key h1 = Ok true) ∧
  (∀ h1 i, DynaconfDict.set self key (VMissing (S i)) h = Ok h1 →
           DynaconfDict.exists_ self key h1 = Ok true) ∧
  (∀ h1, DynaconfDict.set self key missing h = Ok h1 →
         DynaconfDict.exists_ self key h1 = Ok false).
Proof.
  intros Hself.
  assert (∀ v h1, DynaconfDict.set self key v h = Ok h1 →
            DynaconfDict.exists_ self key h1 = Ok (negb (bool_decide (v = missing))))
    as Hset.
  { intros v h1. unfold DynaconfDict.set, DynaconfDict.exists_, DynaconfDict.get.
    rewrite Hself. intros [= <-]. rewrite lookup_insert_eq, dict_get_setitem.
    by rewrite bool_decide_eq_true_2. }
  split_and!.
  - unfold DynaconfDict.exists_, DynaconfDict.get. rewrite Hself. simpl.
    destruct (dict_get key entries) as [v|]; [done|].
    unfold py_is. by rewrite bool_decide_eq_true_2.
  - apply Hset.
  - intros h1 H1. by rewrite (Hset _ _ H1).
  - intros h1 i H1. by rewrite (Hset _ _ H1).
  - intros h1 H1. by rewrite (Hset _ _ H1).
Qed.

Lemma X15_exists_tells_missing_apart_witness :
  DynaconfDict.exists_ 0 "DEBUG" Examples.settings = Ok true ∧
  DynaconfDict.exists_ 0 "HOST" Examples.settings = Ok false.
Proof.
  split.
  - exact (proj1 (X15_exists_tells_missing_apart Examples.settings 0 "DEBUG" VNone
                    [("DEBUG"%string, VNone)] eq_refl)).
  - exact (proj1 (X15_exists_tells_missing_apart Examples.settings 0 "HOST" VNone
                    [("DEBUG"%string, VNone)] eq_refl)).
Defined.

(** X16: what was set on a DynaconfDict survives a merge into it.  After
    [d.set(key, value)], a call [object_merge(old, d, unique)] that returns
    leaves [key] bound in [d] to [value], the same object, whatever [old]
    holds under [key]. *)
Theorem X16_set_survives_merge
    (f : nat) (h h1 h2 : heap) (self : loc) (key : string) (value old : val)
    (unique : bool) (entries : list (string * val)) :
  h !! self = Some (ODict entries) →
  DynaconfDict.set self key value h = Ok h1 →
  object_merge f old (VRef self) unique h1 = Ok h2 →
  ∀ default, DynaconfDict.get self key default h2 = Ok value.
Proof.
  intros Hself Hset Hrun default.
  unfold DynaconfDict.set in Hset. rewrite Hself in Hset. injection Hset as <-.
  destruct (object_merge_keeps_bindings f
              (<[self := ODict (dict_setitem key value entries)]> h) h2 self
              (dict_setitem key value entries) old unique)
    as (en' & Hself2 & Hkeep); [by rewrite lookup_insert_eq|done|].
  unfold DynaconfDict.get. rewrite Hself2, (Hkeep key value); [done|].
  rewrite dict_get_setitem. by rewrite bool_decide_eq_true_2.
Qed.

Lemma X16_set_survives_merge_witness :
  ∃ h1 h2, DynaconfDict.set 0 "DEBUG" (VInt 0) Examples.settings = Ok h1 ∧
           object_merge 3 (VRef 1) (VRef 0) false h1 = Ok h2 ∧
           DynaconfDict.get 0 "DEBUG" missing h2 = Ok (VInt 0) ∧
           DynaconfDict.get 0 "HOST" missing h2 = Ok (VStr "x").
Proof.
  assert (∃ h1, DynaconfDict.set 0 "DEBUG" (VInt 0) Examples.settings = Ok h1)
    as [h1 Hset] by (eexists; reflexivity).
  assert (∃ h2, object_merge 3 (VRef 1) (VRef 0) false h1 = Ok h2 ∧
                DynaconfDict.get 0 "HOST" missing h2 = Ok (VStr "x"))
    as (h2 & Hrun & Hhost).
  { injection Hset as <-. eexists. split; vm_compute; reflexivity. }
  exists h1, h2. split_and!; [exact Hset|exact Hrun| |exact Hhost].
  exact (X16_set_survives_merge 3 Examples.settings h1 h2 0 "DEBUG" (VInt 0) (VRef 1)
           false [("DEBUG"%string, VNone)] eq_refl Hset Hrun missing).
Defined.

(** * compat_kwargs and warn_deprecations *)

Lemma dict_setitem_prefix (k : string) (v : val) (e : list (string * val)) :
  e.*1 `prefix_of` (dict_setitem k v e).*1.
Proof.
  rewrite dict_setitem_keys. case_bool_decide; [done|]. by apply prefix_app_r.
Qed.

(** The inner loop never fails once [new] is bound: it binds every
    deprecated name of [new] to the value of [new] and nothing else. *)
Lemma update_cross_references_spec (table : list (string * string)) (new : string)
    (v : val) (kwargs : list (string * val)) :
  dict_get new kwargs = Some v →
  ∃ kwargs', update_cross_references table new kwargs = Some kwargs' ∧
    (∀ k, dict_get k kwargs'
          = if bool_decide ((k, new) ∈ table) then Some v else dict_get k kwargs) ∧
    kwargs.*1 `prefix_of` kwargs'.*1.
Proof.
  revert kwargs. induction table as [|[c_old c_new] table IH]; intros kwargs Hnew.
  - exists kwargs. split_and!; [done| |done].
    intros k. rewrite bool_decide_eq_false_2; [done|]. apply not_elem_of_nil.
  - cbn [update_cross_references]. case_bool_decide as Hc.
    + subst c_new. rewrite Hnew. cbn.
      destruct (IH (dict_setitem c_old v kwargs)) as (kwargs' & Hrun & Hget & Hpre).
      { rewrite dict_get_setitem. by case_bool_decide. }
      exists kwargs'. split_and!; [done| |].
      * intros k. rewrite Hget, dict_get_setitem.
        destruct (decide (c_old = k)) as [->|Hne].
        -- rewrite (bool_decide_eq_true_2 ((k, new) ∈ (k, new) :: table)) by left.
           by repeat case_bool_decide.
        -- rewrite (bool_decide_eq_false_2 (c_old = k)) by done.
           rewrite (bool_decide_ext ((k, new) ∈ (c_old, new) :: table)
                      ((k, new) ∈ table)); [done|].
           rewrite elem_of_cons.
           split; [|by right]. intros [[= ?]|?]; [congruence|done].
      * etrans; [apply (dict_setitem_prefix c_old v)|done].
    + destruct (IH kwargs Hnew) as (kwargs' & Hrun & Hget & Hpre).
      exists kwargs'. split_and!; [done| |done].
      intros k. rewrite Hget.
      rewrite (bool_decide_ext ((k, new) ∈ (c_old, c_new) :: table)
                 ((k, new) ∈ table)); [done|].
      rewrite elem_of_cons.
      split; [|by right]. intros [[= _ ?]|?]; [congruence|done].
Qed.

Lemma first_alias_app (P Q : list (string * string)) (n : string)
    (kwargs : list (string * val)) :
  first_alias (P ++ Q) n kwargs
  = match first_alias P n kwargs with
    | Some v => Some v
    | None => first_alias Q n kwargs
    end.
Proof.
  induction P as [|[o m] P IH]; [done|]. cbn [app first_alias].
  case_bool_decide; [|done]. by destruct (dict_get o kwargs).
Qed.

Lemma first_alias_None (table : list (string * string)) (n o : string)
    (kwargs : list (string * val)) :
  first_alias table n kwargs = None → (o, n) ∈ table → dict_get o kwargs = None.
Proof.
  induction table as [|[o' m] table IH]; [by intros _ ?%elem_of_nil|].
  cbn [first_alias]. rewrite elem_of_cons. case_bool_decide as Hm.
  - destruct (dict_get o' kwargs) eqn:Ho'; [done|].
    intros Hfa [[= -> _]|Hin]; [done|by apply IH].
  - intros Hfa [[= _ ->]|Hin]; [done|by apply IH].
Qed.

Lemma first_alias_Some (table : list (string * string)) (n : string) (v : val)
    (kwargs : list (string * val)) :
  first_alias table n kwargs = Some v →
  ∃ o, (o, n) ∈ table ∧ dict_get o kwargs = Some v.
Proof.
  induction table as [|[o' m] table IH]; [done|]. cbn [first_alias].
  case_bool_decide as Hm.
  - destruct (dict_get o' kwargs) eqn:Ho'.
    + intros [= ->]. subst m. exists o'. split; [left|done].
    + intros (o & Hin & Ho)%IH. exists o. split; [by right|done].
  - intros (o & Hin & Ho)%IH. exists o. split; [by right|done].
Qed.

(** When a single deprecated name of [n] is bound, it is the first one. *)
Lemma first_alias_only (table : list (string * string)) (n o : string) (v : val)
    (kwargs : list (string * val)) :
  (o, n) ∈ table → dict_get o kwargs = Some v →
  (∀ o', (o', n) ∈ table → o' ≠ o → dict_get o' kwargs = None) →
  first_alias table n kwargs = Some v.
Proof.
  intros Hin Ho Honly.
  destruct (first_alias table n kwargs) as [w|] eqn:Hfa.
  - apply first_alias_Some in Hfa as (o' & Hin' & Ho').
    destruct (decide (o' = o)) as [->|Hne]; [congruence|].
    rewrite (Honly o' Hin' Hne) in Ho'. done.
  - rewrite (first_alias_None _ _ _ _ Hfa Hin) in Ho. done.
Qed.

Lemma NoDup_fst_agree {A B} (l : list (A * B)) (a : A) (b b' : B) :
  NoDup l.*1 → (a, b) ∈ l → (a, b') ∈ l → b = b'.
Proof.
  intros Hnd (i & Hi)%list_elem_of_lookup (j & Hj)%list_elem_of_lookup.
  assert (i = j) as ->.
  { apply (NoDup_lookup l.*1 i j a Hnd); rewrite list_lookup_fmap.
    - by rewrite Hi.
    - by rewrite Hj. }
  congruence.
Qed.

Section renaming_table.
Variable T : list (string * string).
Hypothesis T_old_distinct : NoDup T.*1.
Hypothesis T_new_not_old : ∀ n, n ∈ T.*2 → n ∉ T.*1.

Lemma group_of_Some (k n : string) :
  n ∈ T.*2 → group_of T k = Some n ↔ k = n ∨ (k, n) ∈ T.
Proof.
  intros Hn. unfold group_of.
  destruct (list_find (λ p, p.1 = k) T) as [[i [k' n']]|] eqn:Hfind.
  - apply list_find_Some in Hfind as (Hi & Hk & _). simpl in Hk. subst k'.
    apply list_elem_of_lookup_2 in Hi.
    split.
    + intros [= ->]. by right.
    + intros [->|Hin].
      * exfalso. apply (T_new_not_old n Hn).
        apply list_elem_of_fmap. by exists (n, n').
      * f_equal. by eapply NoDup_fst_agree.
  - apply list_find_None in Hfind. rewrite Forall_forall in Hfind.
    split.
    + case_bool_decide; [|done]. intros [= ->]. by left.
    + intros [->|Hin].
      * by rewrite bool_decide_eq_true_2.
      * exfalso. by apply (Hfind (k, n) Hin).
Qed.

Lemma group_of_new (k n : string) : group_of T k = Some n → n ∈ T.*2.
Proof.
  unfold group_of.
  destruct (list_find (λ p, p.1 = k) T) as [[i [k' n']]|] eqn:Hfind.
  - apply list_find_Some in Hfind as (Hi & _). intros [= ->].
    apply list_elem_of_fmap. exists (k', n). split; [done|].
    by eapply list_elem_of_lookup_2.
  - case_bool_decide; [|done]. by intros [= <-].
Qed.

Lemma group_of_None (k : string) : group_of T k = None → (k ∉ T.*1) ∧ (k ∉ T.*2).
Proof.
  unfold group_of.
  destruct (list_find (λ p, p.1 = k) T) as [[i [k' n']]|] eqn:Hfind; [done|].
  case_bool_decide as Hk; [done|]. intros _. split; [|done].
  apply list_find_None in Hfind. rewrite Forall_forall in Hfind.
  intros ([k' n'] & -> & Hin)%list_elem_of_fmap. by apply (Hfind _ Hin).
Qed.

(** The outer loop, from any point of the table: the entries reached are
    described by [renamed_value] over the part of the table visited. *)
Lemma compat_kwargs_loop_spec (kwargs0 : list (string * val))
    (Q P : list (string * string)) (kwargs : list (string * val)) :
  T = P ++ Q →
  (∀ k, dict_get k kwargs
        = match group_of T k with
          | Some n => match first_alias P n kwargs0 with
                      | Some v => Some v
                      | None => dict_get k kwargs0
                      end
          | None => dict_get k kwargs0
          end) →
  ∃ kwargs', compat_kwargs_loop T Q kwargs = Some kwargs' ∧
    (∀ k, dict_get k kwargs' = renamed_value T kwargs0 k) ∧
    kwargs.*1 `prefix_of` kwargs'.*1.
Proof.
  revert P kwargs. induction Q as [|[o n] Q IH]; intros P kwargs HT Hinv.
  - exists kwargs. rewrite app_nil_r in HT. subst P. done.
  - assert ((o, n) ∈ T) as Hin by (rewrite HT, elem_of_app; right; left).
    assert (n ∈ T.*2) as Hn by (apply list_elem_of_fmap; by exists (o, n)).
    assert (group_of T o = Some n) as Hgo by (apply group_of_Some; auto).
    assert (T = (P ++ [(o, n)]) ++ Q) as HT' by (by rewrite <- app_assoc).
    pose proof (Hinv o) as Hinvo. rewrite Hgo in Hinvo.
    cbn [compat_kwargs_loop].
    destruct (dict_get o kwargs) as [v|] eqn:Ho.
    + assert (first_alias (P ++ [(o, n)]) n kwargs0 = Some v) as Hfa.
      { rewrite first_alias_app. destruct (first_alias P n kwargs0); [done|].
        cbn. rewrite bool_decide_eq_true_2 by done. by rewrite <- Hinvo. }
      destruct (update_cross_references_spec T n v (dict_setitem n v kwargs))
        as (kwargs1 & Hrun1 & Hget1 & Hpre1).
      { rewrite dict_get_setitem. by rewrite bool_decide_eq_true_2. }
      rewrite Hrun1. cbn.
      destruct (IH (P ++ [(o, n)]) kwargs1 HT') as (kwargs' & Hrun & Hget & Hpre).
      { intros k. rewrite Hget1, dict_get_setitem.
        destruct (group_of T k) as [m|] eqn:Hgk.
        - destruct (decide (m = n)) as [->|Hmn].
          + rewrite Hfa. apply (group_of_Some k n Hn) in Hgk as [->|Hk].
            * rewrite (bool_decide_eq_true_2 (n = n)) by done. by case_bool_decide.
            * by rewrite bool_decide_eq_true_2.
          + rewrite bool_decide_eq_false_2.
            2:{ intros Hk. apply Hmn. symmetry.
                assert (group_of T k = Some n) as Hgk' by (apply group_of_Some; auto).
                congruence. }
            rewrite bool_decide_eq_false_2.
            2:{ intros ->. apply Hmn. symmetry.
                assert (group_of T k = Some k) as Hgk' by (apply group_of_Some; auto).
                congruence. }
            rewrite Hinv, Hgk, first_alias_app.
            destruct (first_alias P m kwargs0); [done|].
            cbn. by rewrite bool_decide_eq_false_2 by done.
        - apply group_of_None in Hgk as [Hk1 Hk2].
          rewrite bool_decide_eq_false_2.
          2:{ intros Hk. apply Hk1. apply list_elem_of_fmap. by exists (k, n). }
          rewrite bool_decide_eq_false_2 by (by intros ->).
          rewrite Hinv. destruct (group_of T k) as [m|] eqn:Hgk; [|done].
          exfalso. apply group_of_new in Hgk as Hm.
          apply (group_of_Some k m Hm) in Hgk as [->|Hk]; [done|].
          apply Hk1. apply list_elem_of_fmap. by exists (k, m). }
      exists kwargs'. split_and!; [done|done|].
      etrans; [apply (dict_setitem_prefix n v)|]. etrans; done.
    + destruct (IH (P ++ [(o, n)]) kwargs HT') as (kwargs' & Hrun & Hget & Hpre).
      { intros k. rewrite Hinv. destruct (group_of T k) as [m|]; [|done].
        rewrite first_alias_app. destruct (first_alias P m kwargs0) eqn:HP; [done|].
        cbn. case_bool_decide as Hm; [|done]. subst m. rewrite HP in Hinvo.
        by rewrite <- Hinvo. }
      by exists kwargs'.
Qed.

End renaming_table.

Lemma update_cross_references_NoDup (table : list (string * string)) (new : string)
    (kwargs kwargs' : list (string * val)) :
  update_cross_references table new kwargs = Some kwargs' →
  NoDup kwargs.*1 → NoDup kwargs'.*1.
Proof.
  revert kwargs. induction table as [|[c_old c_new] table IH]; intros kwargs.
  - by intros [= <-].
  - cbn [update_cross_references]. case_bool_decide; [|by apply IH].
    destruct (dict_get new kwargs) as [v|]; [|done]. cbn.
    intros Hrun Hnd. eapply IH; [done|]. by apply dict_setitem_NoDup.
Qed.

Lemma compat_kwargs_loop_NoDup (table todo : list (string * string))
    (kwargs kwargs' : list (string * val)) :
  compat_kwargs_loop table todo kwargs = Some kwargs' →
  NoDup kwargs.*1 → NoDup kwargs'.*1.
Proof.
  revert kwargs. induction todo as [|[o n] todo IH]; intros kwargs.
  - by intros [= <-].
  - cbn [compat_kwargs_loop]. destruct (dict_get o kwargs) as [v|]; [|by apply IH].
    destruct (update_cross_references table n (dict_setitem n v kwargs))
      as [kwargs1|] eqn:Hrun1; [|done]. cbn.
    intros Hrun Hnd. eapply IH; [done|].
    eapply update_cross_references_NoDup; [done|]. by apply dict_setitem_NoDup.
Qed.

Lemma update_cross_references_fixed (table : list (string * string)) (new : string)
    (v : val) (kwargs : list (string * val)) :
  dict_get new kwargs = Some v →
  (∀ o, (o, new) ∈ table → dict_get o kwargs = Some v) →
  update_cross_references table new kwargs = Some kwargs.
Proof.
  intros Hnew. induction table as [|[c_old c_new] table IH]; intros Hall; [done|].
  cbn [update_cross_references]. case_bool_decide as Hc.
  - subst c_new. rewrite Hnew. cbn. rewrite dict_setitem_same by (apply Hall; left).
    apply IH. intros o Ho. apply Hall. by right.
  - apply IH. intros o Ho. apply Hall. by right.
Qed.

(** Entries in which a deprecated name is never bound without its new name
    and all the other deprecated names of that setting being bound to the
    same value are left as they are. *)
Lemma compat_kwargs_loop_fixed (table todo : list (string * string))
    (kwargs : list (string * val)) :
  (∀ o n v, (o, n) ∈ table → dict_get o kwargs = Some v →
     dict_get n kwargs = Some v ∧
     ∀ o', (o', n) ∈ table → dict_get o' kwargs = Some v) →
  todo ⊆ table →
  compat_kwargs_loop table todo kwargs = Some kwargs.
Proof.
  intros Hcons. induction todo as [|[o n] todo IH]; intros Hsub; [done|].
  cbn [compat_kwargs_loop].
  assert (todo ⊆ table) as Hsub' by (intros p Hp; apply Hsub; by right).
  destruct (dict_get o kwargs) as [v|] eqn:Ho; [|by apply IH].
  destruct (Hcons o n v) as [Hn Hall]; [apply Hsub; left|done|].
  rewrite (dict_setitem_same n v kwargs Hn).
  rewrite (update_cross_references_fixed table n v kwargs Hn Hall). cbn.
  by apply IH.
Qed.

Lemma compat_kwargs_loop_absent (table todo : list (string * string))
    (kwargs : list (string * val)) :
  (∀ o, o ∈ todo.*1 → dict_get o kwargs = None) →
  compat_kwargs_loop table todo kwargs = Some kwargs.
Proof.
  induction todo as [|[o n] todo IH]; intros Habs; [done|].
  cbn [compat_kwargs_loop]. rewrite (Habs o) by left.
  apply IH. intros o' Ho'. apply Habs. by right.
Qed.

Lemma renamed_warnings_absent (todo : list (string * string))
    (data : list (string * val)) :
  (∀ o, o ∈ todo.*1 → dict_get o data = None) → renamed_warnings todo data = [].
Proof.
  induction todo as [|[o n] todo IH]; intros Habs; [done|].
  cbn [renamed_warnings]. rewrite (Habs o) by left.
  apply IH. intros o' Ho'. apply Habs. by right.
Qed.

Lemma renamed_warnings_sublist (todo : list (string * string))
    (data : list (string * val)) :
  renamed_warnings todo data `sublist_of` (λ p, renamed_warning p.1 p.2) <$> todo.
Proof.
  induction todo as [|[o n] todo IH]; [done|]. cbn [renamed_warnings].
  rewrite fmap_cons. destruct (dict_get o data).
  - by apply sublist_skip.
  - by apply sublist_cons.
Qed.

Lemma elem_of_renamed_warnings (todo : list (string * string))
    (data : list (string * val)) (w : string) :
  w ∈ renamed_warnings todo data ↔
  ∃ o n, (o, n) ∈ todo ∧ o ∈ data.*1 ∧ w = renamed_warning o n.
Proof.
  induction todo as [|[o n] todo IH].
  - split; [by intros ?%elem_of_nil|]. by intros (? & ? & ?%elem_of_nil & _).
  - cbn [renamed_warnings]. destruct (dict_get o data) as [v|] eqn:Ho.
    + rewrite elem_of_cons, IH. split.
      * intros [->|(o' & n' & Hin & Hk & ->)].
        -- exists o, n. split_and!; [left| |done].
           apply dict_get_is_Some. by rewrite Ho.
        -- exists o', n'. split_and!; [by right|done|done].
      * intros (o' & n' & [[= -> ->]|Hin]%elem_of_cons & Hk & ->); [by left|].
        right. by exists o', n'.
    + rewrite IH. apply dict_get_None in Ho. split.
      * intros (o' & n' & Hin & Hk & ->). exists o', n'.
        split_and!; [by right|done|done].
      * intros (o' & n' & [[= -> ->]|Hin]%elem_of_cons & Hk & ->); [done|].
        by exists o', n'.
Qed.

Lemma RENAMED_VARS_old_distinct : NoDup RENAMED_VARS.*1.
Proof. apply (bool_decide_unpack _). vm_compute. reflexivity. Qed.

Lemma RENAMED_VARS_new_not_old (n : string) :
  n ∈ RENAMED_VARS.*2 → n ∉ RENAMED_VARS.*1.
Proof.
  revert n. apply Forall_forall. apply (bool_decide_unpack _).
  vm_compute. reflexivity.
Qed.

(** No two warnings that [warn_deprecations] can issue have the same text. *)
Lemma deprecation_warnings_distinct :
  NoDup (merge_enabled_warning
         :: ((λ p, renamed_warning p.1 p.2) <$> RENAMED_VARS)).
Proof. apply (bool_decide_unpack _). vm_compute. reflexivity. Qed.

Lemma group_of_RENAMED_VARS (o n : string) :
  (o, n) ∈ RENAMED_VARS →
  group_of RENAMED_VARS o = Some n ∧ group_of RENAMED_VARS n = Some n.
Proof.
  intros Hin.
  assert (n ∈ RENAMED_VARS.*2) as Hn by (apply list_elem_of_fmap; by exists (o, n)).
  split; apply (group_of_Some _ RENAMED_VARS_old_distinct RENAMED_VARS_new_not_old);
    auto.
Qed.

Lemma compat_kwargs_loop_RENAMED_VARS (kwargs : list (string * val)) :
  ∃ kwargs',
    compat_kwargs_loop RENAMED_VARS RENAMED_VARS kwargs = Some kwargs' ∧
    (∀ k, dict_get k kwargs' = renamed_value RENAMED_VARS kwargs k) ∧
    kwargs.*1 `prefix_of` kwargs'.*1.
Proof.
  apply (compat_kwargs_loop_spec _ RENAMED_VARS_old_distinct
           RENAMED_VARS_new_not_old kwargs RENAMED_VARS [] kwargs); [done|].
  intros k. by destruct (group_of RENAMED_VARS k).
Qed.

(** What [compat_kwargs] leaves behind is consistent: a deprecated name is
    bound only together with its new name and all the other deprecated
    names of the setting, to one value. *)
Lemma renamed_value_consistent (kwargs kwargs' : list (string * val)) :
  (∀ k, dict_get k kwargs' = renamed_value RENAMED_VARS kwargs k) →
  ∀ o n v, (o, n) ∈ RENAMED_VARS → dict_get o kwargs' = Some v →
    dict_get n kwargs' = Some v ∧
    ∀ o', (o', n) ∈ RENAMED_VARS → dict_get o' kwargs' = Some v.
Proof.
  intros Hget o n v Hin Ho. rewrite Hget in Ho. unfold renamed_value in Ho.
  destruct (group_of_RENAMED_VARS o n Hin) as [Hgo Hgn]. rewrite Hgo in Ho.
  destruct (first_alias RENAMED_VARS n kwargs) as [w|] eqn:Hfa.
  - injection Ho as ->. split.
    + rewrite Hget. unfold renamed_value. by rewrite Hgn, Hfa.
    + intros o' Hin'. rewrite Hget. unfold renamed_value.
      destruct (group_of_RENAMED_VARS o' n Hin') as [Hgo' _]. by rewrite Hgo', Hfa.
  - rewrite (first_alias_None _ _ _ _ Hfa Hin) in Ho. done.
Qed.

(** X17: [compat_kwargs] never raises the KeyError its inner lookup could,
    removes no key and leaves the keys passed in front, in their order.
    Afterwards a key of a renamed setting, that is its new name or one of
    its deprecated names, is bound to the value passed under the first
    deprecated name of that setting, in the order of RENAMED_VARS, that the
    caller passed, if there is one; every other key is bound as passed. *)
Theorem X17_compat_kwargs_values (h : heap) (kwargs : list (string * val)) :
  ∃ kwargs',
    compat_kwargs h kwargs = Some (warn_deprecations h kwargs, kwargs') ∧
    (∀ k, dict_get k kwargs' = renamed_value RENAMED_VARS kwargs k) ∧
    (∀ k, k ∉ RENAMED_VARS.*1 → k ∉ RENAMED_VARS.*2 →
          dict_get k kwargs' = dict_get k kwargs) ∧
    kwargs.*1 `prefix_of` kwargs'.*1 ∧
    (NoDup kwargs.*1 → NoDup kwargs'.*1).
Proof.
  destruct (compat_kwargs_loop_RENAMED_VARS kwargs) as (kwargs' & Hrun & Hget & Hpre).
  exists kwargs'. unfold compat_kwargs. rewrite Hrun. split_and!; [done|done| |done|].
  - intros k Hk1 Hk2. rewrite Hget. unfold renamed_value.
    destruct (group_of RENAMED_VARS k) as [n|] eqn:Hg; [|done]. exfalso.
    pose proof (group_of_new _ _ _ Hg) as Hn.
    apply (group_of_Some _ RENAMED_VARS_old_distinct RENAMED_VARS_new_not_old
             k n Hn) in Hg as [->|Hin]; [done|].
    apply Hk1. apply list_elem_of_fmap. by exists (k, n).
  - by eapply compat_kwargs_loop_NoDup.
Qed.

Lemma X17_compat_kwargs_values_witness :
  ∃ kwargs',
    compat_kwargs ∅ [("SETTINGS_MODULE", VStr "a"); ("DYNACONF_SETTINGS", VStr "b");
                     ("DEBUG", VBool true)]%string
    = Some (warn_deprecations ∅ [("SETTINGS_MODULE", VStr "a");
                                 ("DYNACONF_SETTINGS", VStr "b");
                                 ("DEBUG", VBool true)]%string, kwargs') ∧
    dict_get "SETTINGS_FILE_FOR_DYNACONF" kwargs' = Some (VStr "b") ∧
    dict_get "DEBUG" kwargs' = Some (VBool true).
Proof.
  destruct (X17_compat_kwargs_values ∅
              [("SETTINGS_MODULE", VStr "a"); ("DYNACONF_SETTINGS", VStr "b");
               ("DEBUG", VBool true)]%string)
    as (kwargs' & Hrun & Hget & _).
  exists kwargs'. split_and!; [exact Hrun| |].
  - exact (Hget "SETTINGS_FILE_FOR_DYNACONF"%string).
  - exact (Hget "DEBUG"%string).
Defined.

(** X18: when the caller passes a deprecated name of a setting,
    [compat_kwargs] binds the new name and every deprecated name of that
    setting to one value, which was passed under a deprecated name of the
    setting; a value passed under the new name itself is overwritten.  When
    no other deprecated name of the setting was passed, it is the value of
    the one passed. *)
Theorem X18_deprecated_name_wins
    (h : heap) (kwargs : list (string * val)) (o n : string) (v : val) :
  (o, n) ∈ RENAMED_VARS →
  dict_get o kwargs = Some v →
  ∃ w kwargs' v',
    compat_kwargs h kwargs = Some (w, kwargs') ∧
    (∃ o', (o', n) ∈ RENAMED_VARS ∧ dict_get o' kwargs = Some v') ∧
    dict_get n kwargs' = Some v' ∧
    (∀ o', (o', n) ∈ RENAMED_VARS → dict_get o' kwargs' = Some v') ∧
    ((∀ o', (o', n) ∈ RENAMED_VARS → o' ≠ o → dict_get o' kwargs = None) → v' = v).
Proof.
  intros Hin Ho.
  destruct (compat_kwargs_loop_RENAMED_VARS kwargs) as (kwargs' & Hrun & Hget & _).
  destruct (first_alias RENAMED_VARS n kwargs) as [v'|] eqn:Hfa.
  2:{ rewrite (first_alias_None _ _ _ _ Hfa Hin) in Ho. done. }
  exists (warn_deprecations h kwargs), kwargs', v'.
  unfold compat_kwargs. rewrite Hrun. split_and!; [done| | | |].
  - by apply first_alias_Some.
  - rewrite Hget. unfold renamed_value.
    destruct (group_of_RENAMED_VARS o n Hin) as [_ Hgn]. by rewrite Hgn, Hfa.
  - intros o' Hin'. rewrite Hget. unfold renamed_value.
    destruct (group_of_RENAMED_VARS o' n Hin') as [Hgo' _]. by rewrite Hgo', Hfa.
  - intros Honly. rewrite (first_alias_only _ _ _ _ _ Hin Ho Honly) in Hfa. congruence.
Qed.

Lemma X18_deprecated_name_wins_witness :
  ∃ w kwargs',
    compat_kwargs ∅ [("ENV_FOR_DYNACONF", VStr "new");
                     ("DYNACONF_NAMESPACE", VStr "old")]%string = Some (w, kwargs') ∧
    dict_get "ENV_FOR_DYNACONF" kwargs' = Some (VStr "old") ∧
    dict_get "NAMESPACE_FOR_DYNACONF" kwargs' = Some (VStr "old").
Proof.
  destruct (X18_deprecated_name_wins ∅
              [("ENV_FOR_DYNACONF", VStr "new");
               ("DYNACONF_NAMESPACE", VStr "old")]%string
              "DYNACONF_NAMESPACE" "ENV_FOR_DYNACONF" (VStr "old"))
    as (w & kwargs' & v' & Hrun & _ & Hn & Hall & Hv).
  - left.
  - reflexivity.
  - assert (v' = VStr "old") as ->.
    { apply Hv. intros o' Hin Hne. revert Hne.
      assert (Forall (λ p : string * string,
                p.2 = "ENV_FOR_DYNACONF"%string → p.1 ≠ "DYNACONF_NAMESPACE"%string →
                dict_get p.1 [("ENV_FOR_DYNACONF", VStr "new");
                              ("DYNACONF_NAMESPACE", VStr "old")]%string = None)
                RENAMED_VARS) as Hall'.
      { apply (bool_decide_unpack _). vm_compute. reflexivity. }
      rewrite Forall_forall in Hall'. exact (Hall' _ Hin eq_refl). }
    exists w, kwargs'. split_and!; [exact Hrun|exact Hn|].
    apply Hall. right. left.
Defined.

(** X19: when the caller passes no deprecated name, [compat_kwargs] leaves
    the keyword arguments exactly as they are, and the only warning it can
    issue is the one for MERGE_ENABLED_FOR_DYNACONF. *)
Theorem X19_no_deprecated_name_no_change (h : heap) (kwargs : list (string * val)) :
  (∀ o, o ∈ RENAMED_VARS.*1 → o ∉ kwargs.*1) →
  ∃ w, compat_kwargs h kwargs = Some (w, kwargs) ∧
       (w = [] ∨ w = [merge_enabled_warning]).
Proof.
  intros Habs.
  assert (∀ o, o ∈ RENAMED_VARS.*1 → dict_get o kwargs = None) as Habs'.
  { intros o Ho. apply dict_get_None. by apply Habs. }
  unfold compat_kwargs, warn_deprecations.
  rewrite (compat_kwargs_loop_absent _ _ _ Habs'),
    (renamed_warnings_absent _ _ Habs'), app_nil_r. cbn.
  eexists. split; [done|]. destruct (py_bool h _); auto.
Qed.

Lemma X19_no_deprecated_name_no_change_witness :
  ∃ w, compat_kwargs ∅ [("ENV_FOR_DYNACONF", VStr "dev");
                        ("MERGE_ENABLED_FOR_DYNACONF", VBool true)]%string
       = Some (w, [("ENV_FOR_DYNACONF", VStr "dev");
                   ("MERGE_ENABLED_FOR_DYNACONF", VBool true)]%string) ∧
       (w = [] ∨ w = [merge_enabled_warning]).
Proof.
  apply (X19_no_deprecated_name_no_change ∅).
  apply Forall_forall. apply (bool_decide_unpack _). vm_compute. reflexivity.
Defined.

(** X20: [compat_kwargs] is idempotent on the keyword arguments: applied to
    what a first call left, it changes nothing, not even the order of the
    keys. *)
Theorem X20_compat_kwargs_idempotent
    (h h' : heap) (kwargs kwargs' : list (string * val)) (w : list string) :
  compat_kwargs h kwargs = Some (w, kwargs') →
  ∃ w', compat_kwargs h' kwargs' = Some (w', kwargs').
Proof.
  intros Hrun.
  destruct (compat_kwargs_loop_RENAMED_VARS kwargs) as (kwargs1 & Hrun1 & Hget & _).
  unfold compat_kwargs in Hrun. rewrite Hrun1 in Hrun. injection Hrun as _ <-.
  unfold compat_kwargs.
  rewrite (compat_kwargs_loop_fixed RENAMED_VARS RENAMED_VARS kwargs1); [by eexists| |done].
  by apply (renamed_value_consistent kwargs).
Qed.

Lemma X20_compat_kwargs_idempotent_witness :
  ∃ w', compat_kwargs ∅ [("PROJECT_ROOT", VStr "/srv");
                         ("ROOT_PATH_FOR_DYNACONF", VStr "/srv");
                         ("PROJECT_ROOT_FOR_DYNACONF", VStr "/srv")]%string
        = Some (w', [("PROJECT_ROOT", VStr "/srv");
                     ("ROOT_PATH_FOR_DYNACONF", VStr "/srv");
                     ("PROJECT_ROOT_FOR_DYNACONF", VStr "/srv")]%string).
Proof.
  apply (X20_compat_kwargs_idempotent ∅ ∅ [("PROJECT_ROOT", VStr "/srv")]%string _
           (warn_deprecations ∅ [("PROJECT_ROOT", VStr "/srv")]%string)).
  vm_compute. reflexivity.
Defined.

(** X21: [warn_deprecations] issues the warning for a deprecated name of
    RENAMED_VARS exactly when that name is a key of [data], and the warning
    for MERGE_ENABLED_FOR_DYNACONF exactly when [data] binds it to a true
    value; it issues no warning twice. *)
Theorem X21_warnings_issued
    (h : heap) (data : list (string * val)) (o n : string) :
  (o, n) ∈ RENAMED_VARS →
  (renamed_warning o n ∈ warn_deprecations h data ↔ o ∈ data.*1) ∧
  (merge_enabled_warning ∈ warn_deprecations h data ↔
   ∃ v, dict_get "MERGE_ENABLED_FOR_DYNACONF" data = Some v ∧ py_bool h v = true) ∧
  NoDup (warn_deprecations h data).
Proof.
  intros Hin. pose proof deprecation_warnings_distinct as Hnd.
  apply NoDup_cons in Hnd as [Hmerge Hnd].
  assert (∀ o' n', (o', n') ∈ RENAMED_VARS →
            renamed_warning o' n' ∈ (λ p, renamed_warning p.1 p.2) <$> RENAMED_VARS)
    as Hmem.
  { intros o' n' Hin'. apply list_elem_of_fmap. by exists (o', n'). }
  assert (merge_enabled_warning ∉ renamed_warnings RENAMED_VARS data) as Hmerge'.
  { intros (o' & n' & Hin' & _ & Heq)%elem_of_renamed_warnings.
    apply Hmerge. rewrite Heq. by apply Hmem. }
  unfold warn_deprecations. split_and!.
  - rewrite elem_of_app, elem_of_renamed_warnings. split.
    + intros [Hl|(o' & n' & Hin' & Hk & Heq)].
      * exfalso. destruct (py_bool h _); [|by apply elem_of_nil in Hl].
        apply list_elem_of_singleton in Hl. apply Hmerge. rewrite <- Hl. by apply Hmem.
      * apply list_elem_of_lookup in Hin as (i & Hi).
        apply list_elem_of_lookup in Hin' as (j & Hj).
        assert (i = j) as ->; [|congruence].
        apply (NoDup_lookup _ i j (renamed_warning o n) Hnd);
          rewrite list_lookup_fmap; [by rewrite Hi|by rewrite Hj, Heq].
    + intros Hk. right. by exists o, n.
  - rewrite elem_of_app. split.
    + intros [Hl|Hr]; [|done].
      destruct (dict_get "MERGE_ENABLED_FOR_DYNACONF" data) as [v|].
      * exists v. split; [done|]. destruct (py_bool h v); [done|].
        by apply elem_of_nil in Hl.
      * by apply elem_of_nil in Hl.
    + intros (v & -> & ->). left. left.
  - apply NoDup_app. split_and!.
    + destruct (py_bool h _); [apply NoDup_singleton|apply NoDup_nil_2].
    + intros x Hx. destruct (py_bool h _); [|by apply elem_of_nil in Hx].
      apply list_elem_of_singleton in Hx. by subst x.
    + eapply sublist_NoDup; [done|apply renamed_warnings_sublist].
Qed.

Lemma X21_warnings_issued_witness :
  renamed_warning "PROJECT_ROOT" "ROOT_PATH_FOR_DYNACONF"
    ∈ warn_deprecations ∅ [("PROJECT_ROOT", VStr "/srv")]%string
  ↔ "PROJECT_ROOT"%string ∈ [("PROJECT_ROOT", VStr "/srv")]%string.*1.
Proof.
  apply (X21_warnings_issued ∅ [("PROJECT_ROOT", VStr "/srv")]%string
           "PROJECT_ROOT" "ROOT_PATH_FOR_DYNACONF").
  apply (bool_decide_unpack _). vm_compute. reflexivity.
Defined.
